(** * AI chat application (MERN stack): conversation store and streaming relay

    A shallow embedding of the backend of the chat application:
    - [models/Chat.js]: the message and chat schemas, [generateTitle],
      [calculateTotalTokens], the pre-save hook and the schema validators;
    - [routes/chat.js]: add-message, delete (soft delete) and get;
    - [routes/ai.js]: the non-streaming completion handler [POST /chat] and
      the streaming handler [POST /stream] with its upstream data handler.

    JavaScript strings are sequences of UTF-16 code units, so they are lists
    of [N]; [jstr] turns a literal into one.  The engine's [JSON.parse] is
    written out as a recursive-descent parser over those code units. *)

From Stdlib Require Import NArith ZArith List Ascii String Bool Lia.
From stdpp Require Import base option list gmap.
Import ListNotations.

Local Open Scope N_scope.

(* ===================================================================== *)
(** ** JavaScript strings *)
(* ===================================================================== *)

Module JsString.

(** A string value: its UTF-16 code units. *)
Definition jsstring : Type := list N.

(** The code units of an ASCII literal. *)
Definition jstr (s : string) : jsstring :=
  map N_of_ascii (list_ascii_of_string s).

(** A text written with the apostrophe standing for the double quote and
    the vertical bar for a line feed, to spell JSON and frames readably. *)
Definition jtext (s : string) : jsstring :=
  map (fun c => if c =? 39 then 34 else if c =? 124 then 10 else c) (jstr s).

(** [a === b] on strings. *)
Definition str_eqb (a b : jsstring) : bool := bool_decide (a = b).

(** [s.startsWith(p)]. *)
Fixpoint startsWith (s p : jsstring) {struct p} : bool :=
  match p, s with
  | [], _ => true
  | _ :: _, [] => false
  | x :: p', y :: s' => (x =? y) && startsWith s' p'
  end.

(** [s.slice(n)] for [0 <= n]. *)
Definition slice (n : nat) (s : jsstring) : jsstring := skipn n s.

(** [s.substring(0, n)]. *)
Definition substring0 (n : nat) (s : jsstring) : jsstring := firstn n s.

(** [s.length], as a natural number. *)
Definition str_length (s : jsstring) : N := N.of_nat (length s).

(** [Math.ceil(s.length / 4)]. *)
Definition ceil_quarter_length (s : jsstring) : N := (str_length s + 3) / 4.

(** [s.split('\n')]: never empty; an empty input gives one empty piece. *)
Fixpoint split_newline (s : jsstring) : list jsstring :=
  match s with
  | [] => [[]]
  | c :: r =>
      if c =? 10 then [] :: split_newline r
      else match split_newline r with
           | h :: t => (c :: h) :: t
           | [] => [[c]]
           end
  end.

(** White space and line terminators, the characters [String.prototype.trim]
    and the regular expression class [\s] remove. *)
Definition is_js_space (c : N) : bool :=
  (c =? 9) || (c =? 10) || (c =? 11) || (c =? 12) || (c =? 13) || (c =? 32)
  || (c =? 160) || (c =? 5760) || ((8192 <=? c) && (c <=? 8202))
  || (c =? 8232) || (c =? 8233) || (c =? 8239) || (c =? 8287)
  || (c =? 12288) || (c =? 65279).

Fixpoint trim_start (s : jsstring) : jsstring :=
  match s with
  | c :: r => if is_js_space c then trim_start r else s
  | [] => []
  end.

(** [s.trim()]; also what the validator chain's [.trim()] sanitizer and the
    schema's [trim: true] setter compute. *)
Definition trim (s : jsstring) : jsstring :=
  rev (trim_start (rev (trim_start s))).

End JsString.
Export JsString.

(* ===================================================================== *)
(** ** JSON values and [JSON.parse] *)
(* ===================================================================== *)

Module Json.

(** A number literal, kept exactly: [(-1)^neg * mant * 10^exp10]. *)
Record jnumber := { num_neg : bool; num_mant : N; num_exp10 : Z }.

#[warnings="-register-all"] Inductive json :=
| JNull
| JBool (b : bool)
| JNum (n : jnumber)
| JStr (s : jsstring)
| JArr (items : list json)
| JObj (members : list (jsstring * json)).

(** A JavaScript value read out of parsed JSON: [None] is [undefined]. *)
Definition jsval : Type := option json.

(** Result of a parser: a value with the unread rest, a syntax error, or
    recursion budget exhausted. *)
Inductive presult (A : Type) :=
| POk (a : A) (rest : jsstring)
| PErr
| PFuel.
Arguments POk {A} a rest.
Arguments PErr {A}.
Arguments PFuel {A}.

(** JSON white space: space, tab, line feed, carriage return. *)
Definition is_ws (c : N) : bool :=
  (c =? 32) || (c =? 9) || (c =? 10) || (c =? 13).

Fixpoint skip_ws (s : jsstring) : jsstring :=
  match s with
  | c :: r => if is_ws c then skip_ws r else s
  | [] => []
  end.

Definition is_digit (c : N) : bool := (48 <=? c) && (c <=? 57).

Definition hex_val (c : N) : option N :=
  if is_digit c then Some (c - 48)
  else if (97 <=? c) && (c <=? 102) then Some (c - 87)
  else if (65 <=? c) && (c <=? 70) then Some (c - 55)
  else None.

(** The character an escape letter stands for. *)
Definition simple_escape (e : N) : option N :=
  if e =? 34 then Some 34          (* quote *)
  else if e =? 92 then Some 92     (* backslash *)
  else if e =? 47 then Some 47     (* slash *)
  else if e =? 98 then Some 8      (* b: backspace *)
  else if e =? 102 then Some 12    (* f: form feed *)
  else if e =? 110 then Some 10    (* n: line feed *)
  else if e =? 114 then Some 13    (* r: carriage return *)
  else if e =? 116 then Some 9     (* t: tab *)
  else None.

(** The body of a string literal, after its opening quote; [acc] holds the
    characters read so far, last first. *)
Fixpoint parse_string (s : jsstring) (acc : jsstring)
  : option (jsstring * jsstring) :=
  match s with
  | [] => None
  | c :: r =>
      if c =? 34 then Some (rev acc, r)
      else if c <? 32 then None
      else if c =? 92 then
        match r with
        | [] => None
        | e :: r1 =>
            match simple_escape e with
            | Some x => parse_string r1 (x :: acc)
            | None =>
                if e =? 117 then
                  match r1 with
                  | h1 :: h2 :: h3 :: h4 :: r2 =>
                      match hex_val h1, hex_val h2, hex_val h3, hex_val h4 with
                      | Some a, Some b, Some c', Some d =>
                          parse_string r2
                            (((a * 16 + b) * 16 + c') * 16 + d :: acc)
                      | _, _, _, _ => None
                      end
                  | _ => None
                  end
                else None
            end
        end
      else parse_string r (c :: acc)
  end.

(** A run of digits: their value appended to [acc], how many there were,
    and the rest. *)
Fixpoint take_digits (s : jsstring) (acc : N) (cnt : nat)
  : N * nat * jsstring :=
  match s with
  | c :: r =>
      if is_digit c then take_digits r (acc * 10 + (c - 48)) (S cnt)
      else (acc, cnt, s)
  | [] => (acc, cnt, [])
  end.

(** Integer part: a single [0], or a digit [1-9] followed by digits. *)
Definition parse_int_part (s : jsstring) : option (N * jsstring) :=
  match s with
  | c :: r =>
      if c =? 48 then Some (0, r)
      else if is_digit c then
        let '(v, _, r') := take_digits r (c - 48) 1 in Some (v, r')
      else None
  | [] => None
  end.

(** Optional fraction: [.] and at least one digit, appended to the
    mantissa; returns the new mantissa and the number of fraction digits. *)
Definition parse_frac (mant : N) (s : jsstring) : option (N * nat * jsstring) :=
  match s with
  | c :: r =>
      if c =? 46 then
        let '(v, cnt, r') := take_digits r mant 0 in
        match cnt with
        | O => None
        | S _ => Some (v, cnt, r')
        end
      else Some (mant, O, s)
  | [] => Some (mant, O, [])
  end.

(** Optional exponent: [e] or [E], an optional sign, at least one digit. *)
Definition parse_exp (s : jsstring) : option (Z * jsstring) :=
  match s with
  | c :: r =>
      if (c =? 101) || (c =? 69) then
        let '(sgn, r1) :=
          match r with
          | d :: r0 =>
              if d =? 45 then (true, r0)
              else if d =? 43 then (false, r0)
              else (false, r)
          | [] => (false, r)
          end in
        let '(v, cnt, r2) := take_digits r1 0 0 in
        match cnt with
        | O => None
        | S _ => Some (if sgn then (- Z.of_N v)%Z else Z.of_N v, r2)
        end
      else Some (0%Z, s)
  | [] => Some (0%Z, [])
  end.

Definition parse_number (s : jsstring) : option (jnumber * jsstring) :=
  let '(neg, s1) :=
    match s with
    | c :: r => if c =? 45 then (true, r) else (false, s)
    | [] => (false, s)
    end in
  match parse_int_part s1 with
  | None => None
  | Some (i, s2) =>
      match parse_frac i s2 with
      | None => None
      | Some (m, fd, s3) =>
          match parse_exp s3 with
          | None => None
          | Some (e, s4) =>
              Some ({| num_neg := neg; num_mant := m;
                       num_exp10 := (e - Z.of_nat fd)%Z |}, s4)
          end
      end
  end.

(** The rest of a keyword ([true], [false], [null]) after its first letter. *)
Definition expect (kw : jsstring) (s : jsstring) (v : json) : presult json :=
  if startsWith s kw then POk v (skipn (length kw) s) else PErr.

Fixpoint parse_value (fuel : nat) (s : jsstring) {struct fuel} : presult json :=
  match fuel with
  | O => PFuel
  | S fuel' =>
      match skip_ws s with
      | [] => PErr
      | c :: r =>
          if c =? 123 then                       (* { *)
            match skip_ws r with
            | c' :: r' =>
                if c' =? 125 then POk (JObj []) r'
                else parse_members fuel' r []
            | [] => PErr
            end
          else if c =? 91 then                   (* [ *)
            match skip_ws r with
            | c' :: r' =>
                if c' =? 93 then POk (JArr []) r'
                else parse_elements fuel' r []
            | [] => PErr
            end
          else if c =? 34 then                   (* string *)
            match parse_string r [] with
            | Some (str, r') => POk (JStr str) r'
            | None => PErr
            end
          else if c =? 116 then expect (jstr "rue") r (JBool true)
          else if c =? 102 then expect (jstr "alse") r (JBool false)
          else if c =? 110 then expect (jstr "ull") r JNull
          else
            match parse_number (c :: r) with
            | Some (n, r') => POk (JNum n) r'
            | None => PErr
            end
      end
  end

with parse_elements (fuel : nat) (s : jsstring) (acc : list json)
       {struct fuel} : presult json :=
  match fuel with
  | O => PFuel
  | S fuel' =>
      match parse_value fuel' s with
      | POk v r =>
          match skip_ws r with
          | c :: r' =>
              if c =? 44 then parse_elements fuel' r' (v :: acc)
              else if c =? 93 then POk (JArr (rev (v :: acc))) r'
              else PErr
          | [] => PErr
          end
      | PErr => PErr
      | PFuel => PFuel
      end
  end

with parse_members (fuel : nat) (s : jsstring) (acc : list (jsstring * json))
       {struct fuel} : presult json :=
  match fuel with
  | O => PFuel
  | S fuel' =>
      match skip_ws s with
      | c :: r =>
          if c =? 34 then
            match parse_string r [] with
            | Some (k, r1) =>
                match skip_ws r1 with
                | c1 :: r2 =>
                    if c1 =? 58 then
                      match parse_value fuel' r2 with
                      | POk v r3 =>
                          match skip_ws r3 with
                          | c3 :: r4 =>
                              if c3 =? 44 then
                                parse_members fuel' r4 ((k, v) :: acc)
                              else if c3 =? 125 then
                                POk (JObj (rev ((k, v) :: acc))) r4
                              else PErr
                          | [] => PErr
                          end
                      | PErr => PErr
                      | PFuel => PFuel
                      end
                    else PErr
                | [] => PErr
                end
            | None => PErr
            end
          else PErr
      | [] => PErr
      end
  end.

(** Recursion budget that a text of this length cannot exhaust. *)
Definition parse_fuel (s : jsstring) : nat := 2 * length s + 2.

(** [JSON.parse(text)]: [None] when it throws a [SyntaxError]. *)
Definition JSON_parse (text : jsstring) : option json :=
  match parse_value (parse_fuel text) text with
  | POk v rest =>
      match skip_ws rest with
      | [] => Some v
      | _ :: _ => None
      end
  | PErr => None
  | PFuel => None
  end.

End Json.
Export Json.

(* ===================================================================== *)
(** ** Reading parsed values: property access and coercions *)
(* ===================================================================== *)

Module JsValue.

(** An own property of a parsed object; of two members with one name the
    later one wins. *)
Fixpoint obj_lookup (ms : list (jsstring * json)) (k : jsstring) : jsval :=
  match ms with
  | [] => None
  | (k', v) :: r =>
      match obj_lookup r k with
      | Some x => Some x
      | None => if str_eqb k' k then Some v else None
      end
  end.

(** [v.k] for a value [v] that is not [null], and a name [k] that no
    prototype defines ([choices], [delta], [content]): only objects have
    it. *)
Definition get_field (v : json) (k : jsstring) : jsval :=
  match v with
  | JObj ms => obj_lookup ms k
  | _ => None
  end.

(** [v[0]] for a value [v] that is not [null]. *)
Definition get_index0 (v : json) : jsval :=
  match v with
  | JArr items => head items
  | JStr (c :: _) => Some (JStr [c])
  | JObj ms => obj_lookup ms (jstr "0")
  | _ => None
  end.

(** One link [v?.f] of an optional chain. *)
Definition opt_chain (v : jsval) (f : json -> jsval) : jsval :=
  match v with
  | None => None
  | Some JNull => None
  | Some x => f x
  end.

(** A number literal denotes zero when its mantissa is zero or when it is
    so small that the nearest double is zero (at most [2^-1075]). *)
Definition num_is_zero (n : jnumber) : bool :=
  (num_mant n =? 0)
  || match num_exp10 n with
     | Zneg p => num_mant n * 2 ^ 1075 <=? 10 ^ Npos p
     | _ => false
     end.

(** [ToBoolean] on parsed values. *)
Definition ToBoolean (v : json) : bool :=
  match v with
  | JNull => false
  | JBool b => b
  | JNum n => negb (num_is_zero n)
  | JStr s => match s with [] => false | _ :: _ => true end
  | JArr _ => true
  | JObj _ => true
  end.

(** [v || '']. *)
Definition or_empty (v : jsval) : json :=
  match v with
  | Some x => if ToBoolean x then x else JStr []
  | None => JStr []
  end.

Section ToString.

(** [Number::toString] of the double a literal denotes is left to the
    engine. *)
Variable Number_toString : jnumber -> jsstring.

(** The string a value contributes to a concatenation [s + v]; [None]
    when the conversion throws a [TypeError] (an object whose own
    [toString] member hides the inherited method). *)
Fixpoint ToString (v : json) : option jsstring :=
  match v with
  | JNull => Some (jstr "null")
  | JBool b => Some (if b then jstr "true" else jstr "false")
  | JNum n => Some (Number_toString n)
  | JStr s => Some s
  | JArr items =>
      (fix join (l : list json) : option jsstring :=
         match l with
         | [] => Some []
         | x :: r =>
             match (match x with JNull => Some [] | _ => ToString x end),
                   join r with
             | Some a, Some b =>
                 Some (a ++ match r with [] => [] | _ :: _ => 44 :: b end)
             | _, _ => None
             end
         end) items
  | JObj ms =>
      match obj_lookup ms (jstr "toString") with
      | Some _ => None
      | None => Some (jstr "[object Object]")
      end
  end.

End ToString.

End JsValue.
Export JsValue.

(* ===================================================================== *)
(** ** models/Chat.js *)
(* ===================================================================== *)

Module ChatModel.

(** [enum: ['user', 'assistant', 'system']]. *)
Inductive Role := RoleUser | RoleAssistant | RoleSystem.

Definition role_eqb (a b : Role) : bool :=
  match a, b with
  | RoleUser, RoleUser | RoleAssistant, RoleAssistant
  | RoleSystem, RoleSystem => true
  | _, _ => false
  end.

(** [messageSchema].  [tokens] is a non-negative integer count. *)
Record message := {
  role : Role;
  content : jsstring;
  timestamp : Z;
  model : option jsstring;
  tokens : N
}.

(** [chatSchema]; the document's [_id] is its key in the collection. *)
Record chat := {
  title : jsstring;
  user : N;
  messages : list message;
  chat_model : jsstring;
  isActive : bool;
  totalTokens : N;
  lastActivity : Z
}.

(** The collection of chat documents, by [_id]. *)
Abbreviation store := (gmap N chat).

Definition default_title : jsstring := jstr "New Chat".

Definition set_messages (c : chat) (ms : list message) : chat :=
  {| title := title c; user := user c; messages := ms;
     chat_model := chat_model c; isActive := isActive c;
     totalTokens := totalTokens c; lastActivity := lastActivity c |}.

Definition set_totalTokens (c : chat) (n : N) : chat :=
  {| title := title c; user := user c; messages := messages c;
     chat_model := chat_model c; isActive := isActive c;
     totalTokens := n; lastActivity := lastActivity c |}.

Definition set_lastActivity (c : chat) (t : Z) : chat :=
  {| title := title c; user := user c; messages := messages c;
     chat_model := chat_model c; isActive := isActive c;
     totalTokens := totalTokens c; lastActivity := t |}.

Definition set_isActive (c : chat) (b : bool) : chat :=
  {| title := title c; user := user c; messages := messages c;
     chat_model := chat_model c; isActive := b;
     totalTokens := totalTokens c; lastActivity := lastActivity c |}.

(** [chat.title = t]: the schema's [trim: true] setter trims the value. *)
Definition set_title (c : chat) (t : jsstring) : chat :=
  {| title := trim t; user := user c; messages := messages c;
     chat_model := chat_model c; isActive := isActive c;
     totalTokens := totalTokens c; lastActivity := lastActivity c |}.

(** [chat.messages.push(m)]. *)
Definition push (c : chat) (m : message) : chat :=
  set_messages c (messages c ++ [m]).

(** [generateTitle]. *)
Definition generateTitle (c : chat) : jsstring :=
  match messages c with
  | _ :: _ =>
      match find (fun msg => role_eqb (role msg) RoleUser) (messages c) with
      | Some firstUserMessage =>
          substring0 50 (content firstUserMessage)
          ++ (if 50 <? str_length (content firstUserMessage)
              then jstr "..." else [])
      | None => default_title
      end
  | [] => default_title
  end.

(** The sum [calculateTotalTokens] computes with [reduce]: exact for the
    counts of the validators (integers from 0), as long as the total stays
    below 2^53, where the engine's numbers stop being exact. *)
Definition sum_tokens (ms : list message) : N :=
  fold_left (fun total msg => total + tokens msg) ms 0.

(** [calculateTotalTokens]: stores the sum in [totalTokens]. *)
Definition calculateTotalTokens (c : chat) : chat :=
  set_totalTokens c (sum_tokens (messages c)).

(** [required: true] on a string path: present and not empty. *)
Definition required_string (s : jsstring) : bool :=
  match s with [] => false | _ :: _ => true end.

(** The validators of [messageSchema]: [content] is required, [model] is
    required when the role is [assistant]. *)
Definition valid_message (m : message) : bool :=
  required_string (content m)
  && match role m with
     | RoleAssistant =>
         match model m with
         | Some s => required_string s
         | None => false
         end
     | _ => true
     end.

(** The validators of [chatSchema], run over the whole document. *)
Definition valid_chat (c : chat) : bool :=
  required_string (title c)
  && (length (title c) <=? 100)%nat
  && required_string (chat_model c)
  && forallb valid_message (messages c).

(** [chat.save()] after a push: validation, then the pre-save hook (the
    [messages] path is modified at every call site, so [lastActivity]
    becomes the current time), then the write.  [None] when validation
    rejects the document; nothing is written then.  Requests are handled one
    at a time here, so writing the document back whole is the update that
    is sent.  The document is written with its strings as they are: the
    driver encodes strings in UTF-8, which is the identity on well-formed
    strings and puts U+FFFD in the place of a lone surrogate, so what is
    stored is what was held exactly for the documents that
    [well_formed_chat] describes.  Statements that compare what the
    collection returns with what a client was sent carry that condition. *)
Definition save (db : store) (id : N) (c : chat) (now : Z)
  : option (store * chat) :=
  if valid_chat c then
    let c' := set_lastActivity c now in
    Some (<[id := c']> db, c')
  else None.

(** [Chat.findOne({ _id, user, isActive: true })]. *)
Definition findOne (db : store) (id : N) (uid : N) : option chat :=
  match db !! id with
  | Some c => if (user c =? uid) && isActive c then Some c else None
  | None => None
  end.

(** [Chat.findOneAndUpdate({ _id, user, isActive: true },
    { isActive: false }, { new: true })]: the updated document, if one
    matched. *)
Definition findOneAndDeactivate (db : store) (id : N) (uid : N)
  : store * option chat :=
  match findOne db id uid with
  | Some c =>
      let c' := set_isActive c false in (<[id := c']> db, Some c')
  | None => (db, None)
  end.

Fixpoint hex_digits (s : jsstring) (acc : N) : option N :=
  match s with
  | [] => Some acc
  | c :: r =>
      match hex_val c with
      | Some d => hex_digits r (acc * 16 + d)
      | None => None
      end
  end.

(** The [ObjectId] a string of 24 hexadecimal digits denotes; other
    strings do not cast. *)
Definition castObjectId (s : jsstring) : option N :=
  if (length s =? 24)%nat then hex_digits s 0 else None.

(** The validator [isMongoId()]. *)
Definition isMongoId (s : jsstring) : bool :=
  match castObjectId s with Some _ => true | None => false end.

End ChatModel.
Export ChatModel.

(* ===================================================================== *)
(** ** What a handler sends back *)
(* ===================================================================== *)

Module Http.

(** The JSON bodies the handlers answer with. *)
Inductive payload :=
| BErrors                                   (* { errors: [...] } *)
| BMessage (msg : jsstring)                 (* { message } *)
| BChatOk (m : message) (usage : option N)  (* { success: true, message, usage } *)
| BChatFail (msg : jsstring) (error : jsstring)
                                            (* { success: false, message, error } *)
| BAdded (m : message) (id : N) (t : jsstring) (total : N)
                         (* { success: true, message, chat: { _id, title, totalTokens } } *)
| BDeleted (msg : jsstring)                 (* { success: true, message } *)
| BChat (id : N) (c : chat).                (* { success: true, chat } *)

Record http_response := { status : N; body : payload }.

(** [req.io.to(room).emit('new-message', { chatId, message })]. *)
Record emit := { room : jsstring; emit_chatId : N; emit_message : message }.

Definition validation_failed : http_response :=
  {| status := 400; body := BErrors |}.

Definition chat_not_found : http_response :=
  {| status := 404; body := BMessage (jstr "Chat not found") |}.

Definition server_error : http_response :=
  {| status := 500; body := BMessage (jstr "Server error") |}.

End Http.
Export Http.

(* ===================================================================== *)
(** ** routes/chat.js *)
(* ===================================================================== *)

Module ChatRoutes.

(** The body of [POST /:chatId/messages]; [body_tokens] is the integer the
    [isInt({ min: 0 })] validator admits. *)
Record message_body := {
  body_content : jsstring;
  body_role : jsstring;
  body_model : option jsstring;
  body_tokens : option N
}.

(** [isIn(['user', 'assistant', 'system'])]. *)
Definition parse_role (r : jsstring) : option Role :=
  if str_eqb r (jstr "user") then Some RoleUser
  else if str_eqb r (jstr "assistant") then Some RoleAssistant
  else if str_eqb r (jstr "system") then Some RoleSystem
  else None.

(** [isLength({ min: 1 })], checked before the sanitizer trims. *)
Definition min_length_1 (s : jsstring) : bool :=
  match s with [] => false | _ :: _ => true end.

(** [router.post('/:chatId/messages', ...)].  [clk n] is the clock value
    read at line [n] of the routes file. *)
Definition post_messages (db : store) (uid : N) (chatId : jsstring)
    (b : message_body) (clk : nat -> Z) : store * list emit * http_response :=
  match min_length_1 (body_content b), parse_role (body_role b) with
  | true, Some role_ =>
      let content_ := trim (body_content b) in
      match castObjectId chatId with
      | None => (db, [], server_error)
      | Some id =>
          match findOne db id uid with
          | None => (db, [], chat_not_found)
          | Some chat0 =>
              let message_ :=
                {| role := role_;
                   content := content_;
                   timestamp := clk 445%nat;
                   model := match role_ with
                            | RoleAssistant => body_model b
                            | _ => None
                            end;
                   tokens := default 0 (body_tokens b) |} in
              let chat1 := calculateTotalTokens (push chat0 message_) in
              let chat2 :=
                if str_eqb (title chat1) default_title
                   && role_eqb role_ RoleUser
                   && (length (messages chat1) =? 1)%nat
                then set_title chat1 (generateTitle chat1)
                else chat1 in
              match save db id chat2 (clk 458%nat) with
              | None => (db, [], server_error)
              | Some (db', chat3) =>
                  (db',
                   [{| room := chatId; emit_chatId := id;
                       emit_message := message_ |}],
                   {| status := 201;
                      body := BAdded message_ id (title chat3)
                                (totalTokens chat3) |})
              end
          end
      end
  | _, _ => (db, [], validation_failed)
  end.

(** [router.delete('/:chatId', ...)]: the soft delete. *)
Definition delete_chat (db : store) (uid : N) (chatId : jsstring)
  : store * http_response :=
  match castObjectId chatId with
  | None => (db, server_error)
  | Some id =>
      match findOneAndDeactivate db id uid with
      | (db', Some _) =>
          (db', {| status := 200;
                   body := BDeleted (jstr "Chat deleted successfully") |})
      | (db', None) => (db', chat_not_found)
      end
  end.

(** [router.get('/:chatId', ...)]. *)
Definition get_chat (db : store) (uid : N) (chatId : jsstring)
  : http_response :=
  match castObjectId chatId with
  | None => server_error
  | Some id =>
      match findOne db id uid with
      | Some c => {| status := 200; body := BChat id c |}
      | None => chat_not_found
      end
  end.

End ChatRoutes.
Export ChatRoutes.

(* ===================================================================== *)
(** ** routes/ai.js *)
(* ===================================================================== *)

Module AiRoutes.

(** The keys of [AVAILABLE_MODELS]. *)
Definition AVAILABLE_MODELS : list jsstring :=
  [ jstr "openai/gpt-3.5-turbo"; jstr "openai/gpt-4";
    jstr "anthropic/claude-3-haiku"; jstr "anthropic/claude-3-sonnet";
    jstr "meta-llama/llama-3.1-8b-instruct";
    jstr "mistralai/mistral-7b-instruct"; jstr "google/gemma-7b-it" ].

(** The body of [POST /chat] and of [POST /stream]. *)
Record chat_request := {
  req_chatId : jsstring;
  req_message : jsstring;
  req_model : option jsstring
}.

(** The validator chain of both handlers. *)
Definition valid_request (r : chat_request) : bool :=
  isMongoId (req_chatId r)
  && min_length_1 (req_message r)
  && match req_model r with
     | None => true
     | Some m => existsb (str_eqb m) AVAILABLE_MODELS
     end.

(** [model || chat.model]. *)
Definition selected_model (r : chat_request) (c : chat) : jsstring :=
  match req_model r with
  | Some (x :: m) => x :: m
  | _ => chat_model c
  end.

(** The user message both handlers build from the sanitized text. *)
Definition user_message (text : jsstring) (now : Z) : message :=
  {| role := RoleUser; content := text; timestamp := now; model := None;
     tokens := ceil_quarter_length text |}.

(** What [await axios.post(...)] and the reading of its envelope come to
    on the non-streaming path:
    - [Rejected d]: the call rejects (a status outside 2xx, a timeout, a
      transport error); [d] is [apiError.response?.data?.error?.message];
    - [Unreadable]: the call resolves but [response.data] has no
      [choices[0].message], so line 102 throws a [TypeError];
    - [Envelope c t]: the call resolves and line 102 reads
      [choices[0].message.content]: [c] is that text, [None] when it is
      [null] or absent; [t] is [usage?.total_tokens], an integer count when
      present. *)
Inductive upstream_reply :=
| Rejected (detail : option jsstring)
| Unreadable
| Envelope (content_ : option jsstring) (total_tokens : option N).

Definition error_text : jsstring :=
  jstr "Sorry, I encountered an error while processing your request. Please try again.".

Definition unavailable_text : jsstring :=
  jstr "AI service temporarily unavailable".

(** The assistant message of the non-streaming path (lines 106-112).  A
    [null] or absent text fails the [required] validator exactly as the
    empty string does, and such a message is never saved or shown, so it is
    carried as the empty string. *)
Definition chat_assistant_message (aiResponse : option jsstring)
    (total_tokens : option N) (selectedModel : jsstring) (now : Z) : message :=
  {| role := RoleAssistant;
     content := default [] aiResponse;
     timestamp := now;
     model := Some selectedModel;
     tokens := default 0 total_tokens |}.

(** The placeholder of the [catch (apiError)] block (lines 134-140). *)
Definition error_message (selectedModel : jsstring) (now : Z) : message :=
  {| role := RoleAssistant; content := error_text; timestamp := now;
     model := Some selectedModel; tokens := 0 |}.

(** [apiError.response?.data?.error?.message || 'Unknown error']. *)
Definition error_detail (d : option jsstring) : jsstring :=
  match d with
  | Some (x :: m) => x :: m
  | _ => jstr "Unknown error"
  end.

(** The [catch (apiError)] block of [POST /chat], entered with the
    document as the [try] block left it.  A failing save throws out of the
    block, to the outer [catch]. *)
Definition on_api_error (db : store) (id : N) (chatId : jsstring)
    (chat_ : chat) (selectedModel : jsstring) (emitted : list emit)
    (detail : option jsstring) (clk : nat -> Z)
  : store * list emit * http_response :=
  let errorMessage := error_message selectedModel (clk 137%nat) in
  match save db id (push chat_ errorMessage) (clk 143%nat) with
  | None => (db, emitted, server_error)
  | Some (db', _) =>
      (db',
       emitted ++ [{| room := chatId; emit_chatId := id;
                      emit_message := errorMessage |}],
       {| status := 500;
          body := BChatFail unavailable_text (error_detail detail) |})
  end.

(** [router.post('/chat', ...)].  [up] is the outcome of the provider call
    made with the last 20 non-system messages; [clk n] is the clock value
    read at line [n]. *)
Definition post_chat (db : store) (uid : N) (r : chat_request)
    (clk : nat -> Z) (up : upstream_reply)
  : store * list emit * http_response :=
  if negb (valid_request r) then (db, [], validation_failed)
  else
    match castObjectId (req_chatId r) with
    | None => (db, [], server_error)
    | Some id =>
        match findOne db id uid with
        | None => (db, [], chat_not_found)
        | Some chat0 =>
            let userMessage := user_message (trim (req_message r)) (clk 61%nat) in
            match save db id (push chat0 userMessage) (clk 66%nat) with
            | None => (db, [], server_error)
            | Some (db1, chat1) =>
                let emitted :=
                  [{| room := req_chatId r; emit_chatId := id;
                      emit_message := userMessage |}] in
                let selectedModel := selected_model r chat1 in
                match up with
                | Rejected detail =>
                    on_api_error db1 id (req_chatId r) chat1 selectedModel
                      emitted detail clk
                | Unreadable =>
                    on_api_error db1 id (req_chatId r) chat1 selectedModel
                      emitted None clk
                | Envelope aiResponse total_tokens =>
                    let assistantMessage :=
                      chat_assistant_message aiResponse total_tokens
                        selectedModel (clk 109%nat) in
                    let chat2 :=
                      calculateTotalTokens (push chat1 assistantMessage) in
                    match save db1 id chat2 (clk 116%nat) with
                    | Some (db2, _) =>
                        (db2,
                         emitted ++ [{| room := req_chatId r; emit_chatId := id;
                                        emit_message := assistantMessage |}],
                         {| status := 200;
                            body := BChatOk assistantMessage total_tokens |})
                    | None =>
                        on_api_error db1 id (req_chatId r) chat2
                          selectedModel emitted None clk
                    end
                end
            end
        end
    end.

(** *** The streaming handler *)

(** The events written to the response as [data: ...] frames. *)
Inductive sse_event :=
| SseError (e : jsstring)          (* { error } *)
| SsePartial (content_ : json)     (* { content, partial: true } *)
| SseDone (fullMessage : message). (* { done: true, fullMessage } *)

(** The response of [POST /stream] once [writeHead] has committed it.
    [sse_client_gone] records that the client's connection has closed. *)
Record sse_response := {
  sse_status : N;
  sse_headers : list (jsstring * jsstring);
  sse_events : list sse_event;
  sse_ended : bool;
  sse_client_gone : bool
}.

(** [res.writeHead(200, { ... })] (lines 178-184). *)
Definition writeHead_sse : sse_response :=
  {| sse_status := 200;
     sse_headers :=
       [ (jstr "Content-Type", jstr "text/event-stream");
         (jstr "Cache-Control", jstr "no-cache");
         (jstr "Connection", jstr "keep-alive");
         (jstr "Access-Control-Allow-Origin", jstr "*");
         (jstr "Access-Control-Allow-Headers", jstr "Cache-Control") ];
     sse_events := [];
     sse_ended := false;
     sse_client_gone := false |}.

(** [res.write(...)]: nothing reaches a response that has ended or whose
    client is gone. *)
Definition res_write (res : sse_response) (e : sse_event) : sse_response :=
  if sse_ended res || sse_client_gone res then res
  else {| sse_status := sse_status res; sse_headers := sse_headers res;
          sse_events := sse_events res ++ [e];
          sse_ended := sse_ended res;
          sse_client_gone := sse_client_gone res |}.

(** [res.end()]. *)
Definition res_end (res : sse_response) : sse_response :=
  {| sse_status := sse_status res; sse_headers := sse_headers res;
     sse_events := sse_events res; sse_ended := true;
     sse_client_gone := sse_client_gone res |}.

Definition client_closed (res : sse_response) : sse_response :=
  {| sse_status := sse_status res; sse_headers := sse_headers res;
     sse_events := sse_events res; sse_ended := sse_ended res;
     sse_client_gone := true |}.

(** What the closures of the upstream handlers share: the collection, the
    document loaded by the handler with its key, the chosen model, the text
    assembled so far and the response. *)
Record session := {
  ss_db : store;
  ss_id : N;
  ss_chat : chat;
  selectedModel : jsstring;
  fullResponse : jsstring;
  ss_res : sse_response
}.

(** The assistant message of the streaming path (lines 248-254). *)
Definition stream_assistant_message (text : jsstring)
    (selectedModel_ : jsstring) (now : Z) : message :=
  {| role := RoleAssistant; content := text; timestamp := now;
     model := Some selectedModel_; tokens := ceil_quarter_length text |}.

(** The [[DONE]] branch (lines 246-263).  [chat.save()] is not awaited: a
    rejected save leaves the collection as it was. *)
Definition on_done (s : session) (clk : nat -> Z) : session :=
  let assistantMessage :=
    stream_assistant_message (fullResponse s) (selectedModel s) (clk 251%nat) in
  let chat1 := calculateTotalTokens (push (ss_chat s) assistantMessage) in
  let '(db', chat2) :=
    match save (ss_db s) (ss_id s) chat1 (clk 258%nat) with
    | Some (d, c) => (d, c)
    | None => (ss_db s, chat1)
    end in
  {| ss_db := db'; ss_id := ss_id s; ss_chat := chat2;
     selectedModel := selectedModel s; fullResponse := fullResponse s;
     ss_res := res_end (res_write (ss_res s) (SseDone assistantMessage)) |}.

(** [parsed.choices?.[0]?.delta?.content]; the outer [None] is the
    [TypeError] of reading [choices] off [null]. *)
Definition delta_content (parsed : json) : option jsval :=
  match parsed with
  | JNull => None
  | _ =>
      Some (opt_chain
              (opt_chain
                 (opt_chain (get_field parsed (jstr "choices")) get_index0)
                 (fun x => get_field x (jstr "delta")))
              (fun d => get_field d (jstr "content")))
  end.

Definition data_prefix : jsstring := jstr "data: ".
Definition done_sentinel : jsstring := jstr "[DONE]".

Section Decoder.

Variable Number_toString : jnumber -> jsstring.

(** The [try] block of lines 265-275 on a payload: the fragment to
    append with the value to show, or [None] when nothing is appended
    (the parse throws, reading the fragment throws, the fragment is
    falsy, or its conversion to a string throws). *)
Definition payload_delta (data : jsstring) : option (json * jsstring) :=
  match JSON_parse data with
  | None => None
  | Some parsed =>
      match delta_content parsed with
      | None => None
      | Some v =>
          let content_ := or_empty v in
          if ToBoolean content_ then
            match ToString Number_toString content_ with
            | Some text => Some (content_, text)
            | None => None
            end
          else None
      end
  end.

(** Lines 265-275. *)
Definition on_payload (s : session) (data : jsstring) : session :=
  match payload_delta data with
  | Some (content_, text) =>
      {| ss_db := ss_db s; ss_id := ss_id s; ss_chat := ss_chat s;
         selectedModel := selectedModel s;
         fullResponse := fullResponse s ++ text;
         ss_res := res_write (ss_res s) (SsePartial content_) |}
  | None => s
  end.

(** The loop of lines 243-277 over the lines of one chunk; the [return]
    of the [[DONE]] branch leaves the remaining lines unread. *)
Fixpoint on_lines (s : session) (clk : nat -> Z) (lines : list jsstring)
  : session :=
  match lines with
  | [] => s
  | line :: rest =>
      if startsWith line data_prefix then
        let data := slice 6 line in
        if str_eqb data done_sentinel then on_done s clk
        else on_lines (on_payload s data) clk rest
      else on_lines s clk rest
  end.

(** The ['data'] listener (lines 240-278); [chunk] is the text that
    [chunk.toString()] yields. *)
Definition on_data (s : session) (clk : nat -> Z) (chunk : jsstring)
  : session :=
  on_lines s clk (split_newline chunk).

(** The ['error'] listener (lines 280-284). *)
Definition on_error (s : session) : session :=
  {| ss_db := ss_db s; ss_id := ss_id s; ss_chat := ss_chat s;
     selectedModel := selectedModel s; fullResponse := fullResponse s;
     ss_res := res_end (res_write (ss_res s)
                          (SseError (jstr "Streaming error"))) |}.

(** What can happen to an open session.  The handler registers listeners
    for ['data'] and ['error'] on the upstream stream only; the closing
    of the client's connection has no listener. *)
Inductive stream_event :=
| Data (clk : nat -> Z) (chunk : jsstring)
| UpstreamError
| ClientClose.

Definition step (s : session) (e : stream_event) : session :=
  match e with
  | Data clk chunk => on_data s clk chunk
  | UpstreamError => on_error s
  | ClientClose =>
      {| ss_db := ss_db s; ss_id := ss_id s; ss_chat := ss_chat s;
         selectedModel := selectedModel s; fullResponse := fullResponse s;
         ss_res := client_closed (ss_res s) |}
  end.

Definition run (s : session) (es : list stream_event) : session :=
  fold_left step es s.

End Decoder.

(** How [await axios.post(..., { responseType: 'stream' })] ends: it
    rejects, or it resolves with the upstream stream. *)
Inductive stream_opening := OpenRejected | OpenResolved.

(** Where [POST /stream] stands once its body has run up to the
    registration of the listeners. *)
Inductive stream_start :=
| Refused (db : store) (res : http_response)
| Closed (db : store) (res : sse_response)
| Reading (s : session).

Definition sse_fail (res : sse_response) (e : jsstring) : sse_response :=
  res_end (res_write res (SseError e)).

(** [router.post('/stream', ...)] up to line 278. *)
Definition post_stream (db : store) (uid : N) (r : chat_request)
    (clk : nat -> Z) (opening : stream_opening) : stream_start :=
  if negb (valid_request r) then Refused db validation_failed
  else
    let res := writeHead_sse in
    match castObjectId (req_chatId r) with
    | None => Closed db (sse_fail res (jstr "Server error"))
    | Some id =>
        match findOne db id uid with
        | None => Closed db (sse_fail res (jstr "Chat not found"))
        | Some chat0 =>
            let userMessage := user_message (trim (req_message r)) (clk 202%nat) in
            match save db id (push chat0 userMessage) (clk 207%nat) with
            | None => Closed db (sse_fail res (jstr "Server error"))
            | Some (db1, chat1) =>
                match opening with
                | OpenRejected =>
                    Closed db1 (sse_fail res (jstr "AI service error"))
                | OpenResolved =>
                    Reading {| ss_db := db1; ss_id := id; ss_chat := chat1;
                               selectedModel := selected_model r chat1;
                               fullResponse := [];
                               ss_res := res |}
                end
            end
        end
    end.

End AiRoutes.
Export AiRoutes.

(* ===================================================================== *)
(** ** Vocabulary of the statements *)
(* ===================================================================== *)

Module Frames.

(** A frame of the upstream protocol, as the provider sends it: a data
    frame with its payload, the completion sentinel, or any other line (a
    comment, a keep-alive). *)
Inductive frame :=
| FData (payload : jsstring)
| FDone
| FOther (line : jsstring).

Definition frame_line (f : frame) : jsstring :=
  match f with
  | FData p => data_prefix ++ p
  | FDone => data_prefix ++ done_sentinel
  | FOther l => l
  end.

(** On the wire a frame is its line and a blank line. *)
Definition frame_bytes (f : frame) : jsstring := frame_line f ++ [10; 10].

(** A chunk that carries whole frames only. *)
Definition chunk_of (fs : list frame) : jsstring :=
  concat (map frame_bytes fs).

Definition newline_free (s : jsstring) : bool :=
  forallb (fun c => negb (c =? 10)) s.

(** A frame that is what its constructor says, on one line. *)
Definition wf_frame (f : frame) : bool :=
  match f with
  | FData p => newline_free p && negb (str_eqb p done_sentinel)
  | FDone => true
  | FOther l => newline_free l && negb (startsWith l data_prefix)
  end.

Definition is_done (f : frame) : bool :=
  match f with FDone => true | _ => false end.

(** Whole frames, none of them the sentinel. *)
Definition plain_frames (fs : list frame) : Prop :=
  Forall (fun f => wf_frame f = true /\ is_done f = false) fs.

(** The payload [p] is a valid data frame carrying the fragment [d]:
    it is one line, it parses, and [choices[0].delta.content] is the
    string [d]. *)
Definition delivers (p : jsstring) (d : jsstring) : Prop :=
  newline_free p = true /\
  exists v, JSON_parse p = Some v /\ delta_content v = Some (Some (JStr d)).

(** A sequence of reads, each with its clock, each carrying whole frames. *)
Definition data_events (groups : list ((nat -> Z) * list frame))
  : list stream_event :=
  map (fun g => Data (fst g) (chunk_of (snd g))) groups.

Definition is_close (e : stream_event) : bool :=
  match e with ClientClose => true | _ => false end.


Section Feed.

Variable Number_toString : jnumber -> jsstring.

(** The text a frame contributes to the assembled response. *)
Definition delta_text (f : frame) : jsstring :=
  match f with
  | FData p =>
      match payload_delta Number_toString p with
      | Some (_, text) => text
      | None => []
      end
  | _ => []
  end.

Definition deltas (fs : list frame) : jsstring :=
  concat (map delta_text fs).

(** The payloads of a sequence of frames, handled one after the other. *)
Definition feed (s : session) (fs : list frame) : session :=
  fold_left (fun s f => match f with
                        | FData p => on_payload Number_toString s p
                        | _ => s
                        end) fs s.

End Feed.

End Frames.
Export Frames.

(** Notions the statements are written with. *)
Module Notions.

(** A string with nothing to trim at either end. *)
Definition trimmed (s : jsstring) : Prop :=
trim_start s = s /\ trim_start (rev s) = rev s.

(** A value parsed by [parse_value], [parse_elements] or [parse_members]
  with budget [f] leaves less than it was given. *)
Definition consumes (f : nat) : Prop :=
(forall s v r, parse_value f s = POk v r -> (length r < length s)%nat) /\
(forall s acc v r,
   parse_elements f s acc = POk v r -> (length r < length s)%nat) /\
(forall s acc v r,
   parse_members f s acc = POk v r -> (length r < length s)%nat).

(** A budget [f] that covers twice the length of the text is not exhausted. *)
Definition fuelled (f : nat) : Prop :=
(forall s, (2 * length s + 2 <= f)%nat -> parse_value f s <> PFuel) /\
(forall s acc,
   (2 * length s + 3 <= f)%nat -> parse_elements f s acc <> PFuel) /\
(forall s acc,
   (2 * length s + 3 <= f)%nat -> parse_members f s acc <> PFuel).

(** Two sessions that differ at most in what reached the client. *)
Definition same_but_client (a b : session) : Prop :=
ss_db a = ss_db b /\ ss_id a = ss_id b /\ ss_chat a = ss_chat b /\
selectedModel a = selectedModel b /\ fullResponse a = fullResponse b /\
sse_ended (ss_res a) = sse_ended (ss_res b).


End Notions.
Export Notions.

(** Concrete inputs for the examples. *)
Module Fixtures.

(** An engine instance for the examples; none of them coerces a number. *)
Definition sample_Number_toString : jnumber -> jsstring := fun _ => [].

Definition sample_chatId : jsstring := jstr "64b7f0c2a1d3e4f5a6b7c8d9".

Definition sample_id : N := default 0 (castObjectId sample_chatId).

Definition sample_user : N := 7.

(** A fresh conversation, as [POST /] creates it. *)
Definition sample_chat : chat :=
  {| title := default_title; user := sample_user; messages := [];
     chat_model := jstr "openai/gpt-3.5-turbo"; isActive := true;
     totalTokens := 0; lastActivity := 0%Z |}.

Definition sample_db : store := {[ sample_id := sample_chat ]}.

(** A clock that reads the line number. *)
Definition sample_clock : nat -> Z := Z.of_nat.

Definition sample_request : chat_request :=
  {| req_chatId := sample_chatId; req_message := jstr "hi";
     req_model := None |}.

(** The session [POST /stream] opens on [sample_db]. *)
Definition sample_session : session :=
  {| ss_db :=
       {[ sample_id :=
            set_lastActivity
              (push sample_chat (user_message (jstr "hi") 202%Z)) 207%Z ]};
     ss_id := sample_id;
     ss_chat :=
       set_lastActivity (push sample_chat (user_message (jstr "hi") 202%Z)) 207%Z;
     selectedModel := jstr "openai/gpt-3.5-turbo";
     fullResponse := [];
     ss_res := writeHead_sse |}.

Definition payload_hel : jsstring :=
  jtext "{'choices':[{'delta':{'content':'Hel'}}]}".

Definition payload_lo : jsstring :=
  jtext "{'choices':[{'delta':{'content':'lo'}}]}".

(** A payload cut short. *)
Definition payload_bad : jsstring := jtext "{'choices':[{'delta':".

(** The frame of [payload_hel], cut in two inside its payload. *)
Definition split_part1 : jsstring :=
  data_prefix ++ jtext "{'choices':[{'delta':{'con".

Definition split_part2 : jsstring := jtext "tent':'Hel'}}]}||".

(** A conversation whose log starts with an assistant greeting. *)
Definition greeted_chat : chat :=
  {| title := default_title; user := sample_user;
     messages :=
       [{| role := RoleAssistant; content := jstr "Welcome!";
           timestamp := 0%Z; model := Some (jstr "openai/gpt-3.5-turbo");
           tokens := 2 |}];
     chat_model := jstr "openai/gpt-3.5-turbo"; isActive := true;
     totalTokens := 2; lastActivity := 0%Z |}.

Definition greeted_db : store := {[ sample_id := greeted_chat ]}.

Definition sample_body : message_body :=
  {| body_content := jstr "Explain quicksort";
     body_role := jstr "user"; body_model := None; body_tokens := Some 5 |}.

(** A text of 60 characters. *)
Definition long_text : jsstring :=
  jstr "Explain quicksort in detail please, with a worked example ok".

Definition long_body : message_body :=
  {| body_content := long_text;
     body_role := jstr "user"; body_model := None; body_tokens := None |}.

End Fixtures.
Export Fixtures.

(* ===================================================================== *)
(** ** The rest of the routes *)
(* ===================================================================== *)

Module MoreRoutes.

(** The context sent to the provider (lines 75-81 and 210-216): the
    messages that are not from the system role, the last 20 of them, each
    reduced to its role and content. *)
Definition apiMessages (c : chat) : list (Role * jsstring) :=
  let kept :=
    List.filter (fun msg => negb (role_eqb (role msg) RoleSystem)) (messages c) in
  map (fun msg => (role msg, content msg)) (skipn (length kept - 20) kept).

(** The fields [select('title model lastActivity createdAt totalTokens')]
    keeps of the updated document, without the creation date. *)
Record chat_summary := {
  sum_title : jsstring;
  sum_model : jsstring;
  sum_lastActivity : Z;
  sum_totalTokens : N
}.

Definition summary_of (c : chat) : chat_summary :=
  {| sum_title := title c; sum_model := chat_model c;
     sum_lastActivity := lastActivity c; sum_totalTokens := totalTokens c |}.

(** What [PUT /:chatId] answers. *)
Inductive put_reply :=
| PutErrors                                (* 400 { errors } *)
| PutNotFound                              (* 404 { message: 'Chat not found' } *)
| PutServerError                           (* 500 { message: 'Server error' } *)
| PutOk (id : N) (c : chat_summary).       (* 200 { success: true, chat } *)

Section UpdateTitle.

(** The verdict of the validator [isLength({ min: 1, max: 100 })] on the
    title as sent; how it counts surrogate pairs and variation selectors is
    the installed validator's business. *)
Variable title_length_ok : jsstring -> bool.

(** [router.put('/:chatId', ...)] (lines 482-515).  The update goes to the
    collection directly: no schema validator and no save hook runs, and the
    [trim] setter meets a title the sanitizer has trimmed already. *)
Definition put_chat (db : store) (uid : N) (chatId : jsstring)
    (raw_title : jsstring) : store * put_reply :=
  if title_length_ok raw_title then
    match castObjectId chatId with
    | None => (db, PutServerError)
    | Some id =>
        match findOne db id uid with
        | Some c =>
            let c' := set_title c (trim raw_title) in
            (<[id := c']> db, PutOk id (summary_of c'))
        | None => (db, PutNotFound)
        end
    end
  else (db, PutErrors).

End UpdateTitle.

(** One lowercase hexadecimal digit. *)
Definition hex_digit (d : N) : N := if d <? 10 then 48 + d else 87 + d.

(** The last [n] hexadecimal digits of [v]. *)
Fixpoint hex_fixed (n : nat) (v : N) : jsstring :=
  match n with
  | O => []
  | S k => hex_fixed k (v / 16) ++ [hex_digit (v mod 16)]
  end.

(** How an [ObjectId] reads in JSON and in an address: 24 hexadecimal
    digits. *)
Definition hex24 (id : N) : jsstring := hex_fixed 24 id.

End MoreRoutes.
Export MoreRoutes.

(* ===================================================================== *)
(** ** The text of a partial event *)
(* ===================================================================== *)

Module SseText.

Definition is_high_surrogate (c : N) : bool := (55296 <=? c) && (c <=? 56319).
Definition is_low_surrogate (c : N) : bool := (56320 <=? c) && (c <=? 57343).

(** [\uXXXX], with lowercase digits. *)
Definition unicode_escape (c : N) : jsstring := 92 :: 117 :: hex_fixed 4 c.

(** How [JSON.stringify] writes one character that is not a surrogate. *)
Definition quote_char (c : N) : jsstring :=
  if c =? 8 then [92; 98]
  else if c =? 9 then [92; 116]
  else if c =? 10 then [92; 110]
  else if c =? 12 then [92; 102]
  else if c =? 13 then [92; 114]
  else if c =? 34 then [92; 34]
  else if c =? 92 then [92; 92]
  else if c <? 32 then unicode_escape c
  else [c].

(** The inside of the string literal [JSON.stringify] writes for a string:
    a surrogate pair stays as it is, a lone surrogate is escaped. *)
Fixpoint quote_body (s : jsstring) : jsstring :=
  match s with
  | [] => []
  | c :: r =>
      if is_high_surrogate c then
        match r with
        | d :: r' =>
            if is_low_surrogate d then c :: d :: quote_body r'
            else unicode_escape c ++ quote_body r
        | [] => unicode_escape c
        end
      else if is_low_surrogate c then unicode_escape c ++ quote_body r
      else quote_char c ++ quote_body r
  end.

(** [JSON.stringify(s)] for a string [s]. *)
Definition JSON_stringify_string (s : jsstring) : jsstring :=
  34 :: quote_body s ++ [34].

(** [JSON.stringify({ content, partial: true })] for a string fragment. *)
Definition partial_payload (fragment : jsstring) : jsstring :=
  jtext "{'content':" ++ JSON_stringify_string fragment ++ jtext ",'partial':true}".

(** What line 271 writes for a string fragment. *)
Definition partial_frame (fragment : jsstring) : jsstring :=
  data_prefix ++ partial_payload fragment ++ [10; 10].

(** Code units are 16 bits wide. *)
Definition code_units (s : jsstring) : Prop := Forall (fun c => c < 65536) s.

End SseText.
Export SseText.

(* ===================================================================== *)
(** ** The client *)
(* ===================================================================== *)

Module Client.

(** The payload of a ['new-message'] event as the client receives it. *)
Record new_message_event := { ev_chatId : jsstring; ev_message : message }.

(** An emitted event on the wire: the identifier reads as its 24 digits. *)
Definition delivered (e : emit) : new_message_event :=
  {| ev_chatId := hex24 (emit_chatId e); ev_message := emit_message e |}.

(** The test of the listener: same timestamp and same content. *)
Definition same_stamp_and_content (a b : message) : bool :=
  (timestamp a =? timestamp b)%Z && str_eqb (content a) (content b).

(** The ['new-message'] listener of the chat views (components/Chat.js
    lines 49-63, components/ClaudeInterface.js lines 76-89), as the update
    of the message list. *)
Definition on_new_message (chatId : jsstring) (prev : list message)
    (data : new_message_event) : list message :=
  if str_eqb (ev_chatId data) chatId then
    if existsb (fun msg => same_stamp_and_content msg (ev_message data)) prev
    then prev
    else prev ++ [ev_message data]
  else prev.

(** The list after a sequence of events. *)
Definition receive (chatId : jsstring) (prev : list message)
    (events : list new_message_event) : list message :=
  fold_left (on_new_message chatId) events prev.

(** The key the listener compares. *)
Definition stamp_and_content (m : message) : Z * jsstring :=
  (timestamp m, content m).


(** The state of the authentication context (contexts/AuthContext.js).  A
    user object is the map of its fields. *)
Record auth_state := {
  auth_user : option (gmap jsstring json);
  auth_token : option jsstring;
  auth_loading : bool;
  auth_error : option jsstring
}.

Inductive auth_action :=
| AUTH_START
| AUTH_SUCCESS (user_ : gmap jsstring json) (token : jsstring)
| AUTH_FAILURE (error : jsstring)
| LOGOUT
| SET_LOADING (b : bool)
| UPDATE_USER (fields : gmap jsstring json)
| OtherAction.

(** [initialState], given what [localStorage] holds under [token] when the
    module loads. *)
Definition initialState (stored : option jsstring) : auth_state :=
  {| auth_user := None; auth_token := stored; auth_loading := true;
     auth_error := None |}.

(** [authReducer] (lines 15-57) with the [localStorage] entry it writes:
    the state and the stored token, before and after. *)
Definition authReducer (st : auth_state * option jsstring) (a : auth_action)
  : auth_state * option jsstring :=
  let '(state, stored) := st in
  match a with
  | AUTH_START =>
      ({| auth_user := auth_user state; auth_token := auth_token state;
          auth_loading := true; auth_error := None |}, stored)
  | AUTH_SUCCESS u t =>
      ({| auth_user := Some u; auth_token := Some t;
          auth_loading := false; auth_error := None |}, Some t)
  | AUTH_FAILURE e =>
      ({| auth_user := None; auth_token := None;
          auth_loading := false; auth_error := Some e |}, None)
  | LOGOUT =>
      ({| auth_user := None; auth_token := None;
          auth_loading := false; auth_error := None |}, None)
  | SET_LOADING b =>
      ({| auth_user := auth_user state; auth_token := auth_token state;
          auth_loading := b; auth_error := auth_error state |}, stored)
  | UPDATE_USER fields =>
      ({| auth_user := Some (fields ∪ default ∅ (auth_user state));
          auth_token := auth_token state;
          auth_loading := auth_loading state;
          auth_error := auth_error state |}, stored)
  | OtherAction => (state, stored)
  end.

(** What a guarded route shows (App.js). *)
Inductive route_view := Spinner | Children | RedirectTo (path : jsstring).

(** [PrivateRoute] (App.js lines 12-24). *)
Definition PrivateRoute (state : auth_state) : route_view :=
  if auth_loading state then Spinner
  else match auth_user state with
       | Some _ => Children
       | None => RedirectTo (jstr "/login")
       end.

(** [PublicRoute] (App.js lines 26-38). *)
Definition PublicRoute (state : auth_state) : route_view :=
  if auth_loading state then Spinner
  else match auth_user state with
       | Some _ => RedirectTo (jstr "/")
       | None => Children
       end.

End Client.
Export Client.

(** Further notions for the statements. *)
Module MoreNotions.

(** Every stored document passes the schema's validators. *)
Definition all_valid (db : store) : Prop :=
  forall id c, db !! id = Some c -> valid_chat c = true.

(** The log [ms'] continues the log [ms]. *)
Definition extends_log (ms ms' : list message) : Prop :=
  exists added, ms' = ms ++ added.

(** An operation on the document [id] that went from [db] to [db']: other
    documents are as they were, and the document, if it was there, kept its
    owner and its messages, in order, at the head of its log. *)
Definition appends_only (id : N) (db db' : store) : Prop :=
  (forall id', id' <> id -> db' !! id' = db !! id') /\
  (forall c, db !! id = Some c ->
     exists c', db' !! id = Some c' /\ user c' = user c /\
                isActive c' = isActive c /\
                extends_log (messages c) (messages c')).

(** A session reading for the conversation that was [c0] in [db0]: other
    documents are untouched, and both the stored document and the one the
    handler holds continue [c0]. *)
Definition tracks (db0 : store) (c0 : chat) (s : session) : Prop :=
  (forall id', id' <> ss_id s -> ss_db s !! id' = db0 !! id') /\
  (exists stored, ss_db s !! ss_id s = Some stored /\
     user stored = user c0 /\ isActive stored = isActive c0 /\
     extends_log (messages c0) (messages stored)) /\
  user (ss_chat s) = user c0 /\ isActive (ss_chat s) = isActive c0 /\
  extends_log (messages c0) (messages (ss_chat s)).

(** [String.prototype.isWellFormed]: every surrogate code unit is half of
    a pair, a high one followed by a low one. *)
Fixpoint isWellFormed (s : jsstring) : bool :=
  match s with
  | [] => true
  | c :: rest =>
      if is_high_surrogate c then
        match rest with
        | d :: rest' => is_low_surrogate d && isWellFormed rest'
        | [] => false
        end
      else negb (is_low_surrogate c) && isWellFormed rest
  end.

(** The strings of a message, and of a conversation, are well formed.  Such
    a document is one the collection can hold: its UTF-8 encoding reads
    back as the same strings. *)
Definition well_formed_message (m : message) : bool :=
  isWellFormed (content m)
  && match model m with Some x => isWellFormed x | None => true end.

Definition well_formed_chat (c : chat) : bool :=
  isWellFormed (title c) && isWellFormed (chat_model c)
  && forallb well_formed_message (messages c).

(** A title validator for the examples: between 1 and 100 code units. *)
Definition sample_title_length_ok (s : jsstring) : bool :=
  (1 <=? length s)%nat && (length s <=? 100)%nat.

End MoreNotions.
Export MoreNotions.

(* ===================================================================== *)
(** ** Strings *)
(* ===================================================================== *)

Lemma str_eqb_true a b : str_eqb a b = true <-> a = b.
Proof. unfold str_eqb. apply bool_decide_eq_true. Qed.

Lemma str_eqb_false a b : str_eqb a b = false <-> a <> b.
Proof. unfold str_eqb. apply bool_decide_eq_false. Qed.

Lemma str_eqb_refl a : str_eqb a a = true.
Proof. by apply str_eqb_true. Qed.

Lemma startsWith_app p s : startsWith (p ++ s) p = true.
Proof.
  induction p as [|x p IH]; [done|].
  simpl. by rewrite N.eqb_refl, IH.
Qed.

Lemma slice_app p s : slice (length p) (p ++ s) = s.
Proof. unfold slice. by rewrite skipn_app, Nat.sub_diag, skipn_all. Qed.

Lemma split_newline_nonempty s : split_newline s <> [].
Proof.
  destruct s as [|c r]; simpl; [done|].
  destruct (c =? 10); [done|]. by destruct (split_newline r).
Qed.

(** Splitting distributes over a newline. *)
Lemma split_newline_app a b :
  split_newline (a ++ 10 :: b) = split_newline a ++ split_newline b.
Proof.
  induction a as [|c a IH]; simpl; [done|].
  destruct (c =? 10); [by rewrite IH|].
  rewrite IH. pose proof (split_newline_nonempty a) as Hne.
  by destruct (split_newline a).
Qed.

Lemma split_newline_line l :
  newline_free l = true -> split_newline l = [l].
Proof.
  induction l as [|c l IH]; simpl; [done|].
  intros [Hc Hl]%andb_prop. apply negb_true_iff in Hc.
  rewrite Hc, (IH Hl). done.
Qed.

Lemma newline_free_app a b :
  newline_free (a ++ b) = newline_free a && newline_free b.
Proof. unfold newline_free. apply forallb_app. Qed.

Lemma frame_line_newline_free f :
  wf_frame f = true -> newline_free (frame_line f) = true.
Proof.
  destruct f as [p| |l]; cbn [wf_frame frame_line].
  - intros [Hp _]%andb_prop. by rewrite newline_free_app, Hp.
  - intros _. by vm_compute.
  - by intros [Hl _]%andb_prop.
Qed.

Lemma chunk_of_app fs gs : chunk_of (fs ++ gs) = chunk_of fs ++ chunk_of gs.
Proof. unfold chunk_of. by rewrite map_app, concat_app. Qed.

(** The lines of a chunk of whole frames followed by anything. *)
Lemma split_newline_frame f rest :
  wf_frame f = true ->
  split_newline (frame_bytes f ++ rest) = frame_line f :: [] :: split_newline rest.
Proof.
  intros Hf. unfold frame_bytes. rewrite <- app_assoc. simpl.
  rewrite split_newline_app, (split_newline_line _ (frame_line_newline_free f Hf)).
  simpl. done.
Qed.

(* ===================================================================== *)
(** ** The parser's budget *)
(* ===================================================================== *)

Lemma skip_ws_length s : (length (skip_ws s) <= length s)%nat.
Proof.
  induction s as [|c s IH]; [done|].
  cbn [skip_ws]. destruct (is_ws c); cbn [length]; lia.
Qed.

Lemma skip_ws_cons s c r : skip_ws s = c :: r -> (length r < length s)%nat.
Proof.
  intros H. pose proof (skip_ws_length s) as Hl. rewrite H in Hl.
  cbn [length] in Hl. lia.
Qed.

Lemma parse_string_length_upto n s acc str r :
  (length s <= n)%nat ->
  parse_string s acc = Some (str, r) -> (length r < length s)%nat.
Proof.
  revert s acc. induction n as [|n IH]; intros s acc Hn.
  { destruct s; [done|cbn in Hn; lia]. }
  destruct s as [|c s]; [done|]. cbn [parse_string]. cbn [length] in Hn.
  destruct (c =? 34); [intros [= <- <-]; cbn; lia|].
  destruct (c <? 32); [done|].
  destruct (c =? 92).
  - destruct s as [|e s]; [done|]. cbn [length] in Hn.
    destruct (simple_escape e).
    + intros H. apply IH in H; cbn [length]; lia.
    + destruct (e =? 117); [|done].
      destruct s as [|h1 [|h2 [|h3 [|h4 s]]]]; try done.
      destruct (hex_val h1), (hex_val h2), (hex_val h3), (hex_val h4); try done.
      cbn [length] in Hn.
      intros H. apply IH in H; cbn [length]; lia.
  - intros H. apply IH in H; cbn [length]; lia.
Qed.

Lemma parse_string_length s acc str r :
  parse_string s acc = Some (str, r) -> (length r < length s)%nat.
Proof. by apply (parse_string_length_upto (length s)). Qed.

Lemma take_digits_length s a n v k r :
  take_digits s a n = (v, k, r) -> (length r <= length s)%nat.
Proof.
  revert a n. induction s as [|c s IH]; intros a n; cbn [take_digits].
  - by intros [= <- <- <-].
  - destruct (is_digit c).
    + intros H. apply IH in H. cbn [length]. lia.
    + by intros [= <- <- <-].
Qed.

Lemma parse_number_length s n r :
  parse_number s = Some (n, r) -> (length r < length s)%nat.
Proof.
  unfold parse_number.
  assert (Hint : forall s1 i s2, parse_int_part s1 = Some (i, s2) ->
                   (length s2 < length s1)%nat).
  { intros s1 i s2. unfold parse_int_part. destruct s1 as [|c s1]; [done|].
    destruct (c =? 48); [intros [= <- <-]; cbn; lia|].
    destruct (is_digit c); [|done].
    destruct (take_digits s1 (c - 48) 1) as [[v k] r'] eqn:Ht.
    intros [= <- <-]. apply take_digits_length in Ht. cbn [length]. lia. }
  assert (Hfrac : forall m s2 v k s3, parse_frac m s2 = Some (v, k, s3) ->
                    (length s3 <= length s2)%nat).
  { intros m s2 v k s3. unfold parse_frac. destruct s2 as [|c s2].
    - by intros [= <- <- <-].
    - destruct (c =? 46); [|by intros [= <- <- <-]].
      destruct (take_digits s2 m 0) as [[v' k'] r'] eqn:Ht.
      destruct k'; [done|]. intros [= <- <- <-].
      apply take_digits_length in Ht. cbn [length]. lia. }
  assert (Hexp : forall s3 e s4, parse_exp s3 = Some (e, s4) ->
                   (length s4 <= length s3)%nat).
  { intros s3 e s4. unfold parse_exp. destruct s3 as [|c s3].
    - by intros [= <- <-].
    - destruct ((c =? 101) || (c =? 69)); [|by intros [= <- <-]].
      destruct (match s3 with
                | [] => (false, s3)
                | d :: r0 => if d =? 45 then (true, r0)
                             else if d =? 43 then (false, r0) else (false, s3)
                end) as [sgn r1] eqn:Hsgn.
      assert (length r1 <= length s3)%nat.
      { destruct s3 as [|d r0]; [by injection Hsgn as <- <-|].
        destruct (d =? 45); [injection Hsgn as <- <-; cbn; lia|].
        destruct (d =? 43); injection Hsgn as <- <-; cbn; lia. }
      destruct (take_digits r1 0 0) as [[v' k'] r'] eqn:Ht.
      destruct k'; [done|]. intros [= <- <-].
      apply take_digits_length in Ht. cbn [length]. lia. }
  destruct (match s with
            | [] => (false, s)
            | c :: r0 => if c =? 45 then (true, r0) else (false, s)
            end) as [neg s1] eqn:Hneg.
  assert (length s1 <= length s)%nat.
  { destruct s as [|c r0]; [by injection Hneg as <- <-|].
    destruct (c =? 45); injection Hneg as <- <-; cbn; lia. }
  destruct (parse_int_part s1) as [[i s2]|] eqn:Hi; [|done].
  destruct (parse_frac i s2) as [[[m k] s3]|] eqn:Hf; [|done].
  destruct (parse_exp s3) as [[e s4]|] eqn:He; [|done].
  intros [= <- <-].
  apply Hint in Hi. apply Hfrac in Hf. apply Hexp in He. lia.
Qed.

Lemma expect_length kw s v v' r :
  expect kw s v = POk v' r -> (length r <= length s)%nat.
Proof.
  unfold expect. destruct (startsWith s kw); [|done].
  intros [= <- <-]. rewrite length_skipn. lia.
Qed.

Lemma parse_consumes f : consumes f.
Proof.
  induction f as [|f (IHv & IHe & IHm)]; [by repeat split|].
  repeat split.
  - intros s v r. cbn [parse_value].
    destruct (skip_ws s) as [|c t] eqn:Hs; [done|].
    apply skip_ws_cons in Hs.
    destruct (c =? 123).
    { destruct (skip_ws t) as [|c' t'] eqn:Ht; [done|]. apply skip_ws_cons in Ht.
      destruct (c' =? 125); [intros [= <- <-]; lia|].
      intros H. apply IHm in H. lia. }
    destruct (c =? 91).
    { destruct (skip_ws t) as [|c' t'] eqn:Ht; [done|]. apply skip_ws_cons in Ht.
      destruct (c' =? 93); [intros [= <- <-]; lia|].
      intros H. apply IHe in H. lia. }
    destruct (c =? 34).
    { destruct (parse_string t []) as [[str r']|] eqn:Hp; [|done].
      apply parse_string_length in Hp. intros [= <- <-]. lia. }
    destruct (c =? 116); [intros H; apply expect_length in H; lia|].
    destruct (c =? 102); [intros H; apply expect_length in H; lia|].
    destruct (c =? 110); [intros H; apply expect_length in H; lia|].
    destruct (parse_number (c :: t)) as [[n r']|] eqn:Hp; [|done].
    apply parse_number_length in Hp. cbn [length] in Hp. intros [= <- <-]. lia.
  - intros s acc v r. cbn [parse_elements].
    destruct (parse_value f s) as [v0 r0| |] eqn:Hv; [|done|done].
    apply IHv in Hv.
    destruct (skip_ws r0) as [|c t] eqn:Hs; [done|]. apply skip_ws_cons in Hs.
    destruct (c =? 44); [intros H; apply IHe in H; lia|].
    destruct (c =? 93); [|done]. intros [= <- <-]. lia.
  - intros s acc v r. cbn [parse_members].
    destruct (skip_ws s) as [|c t] eqn:Hs; [done|]. apply skip_ws_cons in Hs.
    destruct (c =? 34); [|done].
    destruct (parse_string t []) as [[k r1]|] eqn:Hp; [|done].
    apply parse_string_length in Hp.
    destruct (skip_ws r1) as [|c1 r2] eqn:Hs1; [done|]. apply skip_ws_cons in Hs1.
    destruct (c1 =? 58); [|done].
    destruct (parse_value f r2) as [v0 r3| |] eqn:Hv; [|done|done].
    apply IHv in Hv.
    destruct (skip_ws r3) as [|c3 r4] eqn:Hs3; [done|]. apply skip_ws_cons in Hs3.
    destruct (c3 =? 44); [intros H; apply IHm in H; lia|].
    destruct (c3 =? 125); [|done]. intros [= <- <-]. lia.
Qed.

Lemma parse_fuelled f : fuelled f.
Proof.
  induction f as [|f (IHv & IHe & IHm)].
  { repeat split; intros; lia. }
  destruct (parse_consumes f) as (Cv & Ce & Cm).
  repeat split.
  - intros s Hf. cbn [parse_value].
    destruct (skip_ws s) as [|c t] eqn:Hs; [done|].
    apply skip_ws_cons in Hs.
    destruct (c =? 123).
    { destruct (skip_ws t) as [|c' t'] eqn:Ht; [done|]. apply skip_ws_cons in Ht.
      destruct (c' =? 125); [done|]. apply IHm. lia. }
    destruct (c =? 91).
    { destruct (skip_ws t) as [|c' t'] eqn:Ht; [done|]. apply skip_ws_cons in Ht.
      destruct (c' =? 93); [done|]. apply IHe. lia. }
    destruct (c =? 34); [by destruct (parse_string t []) as [[??]|]|].
    unfold expect.
    destruct (c =? 116); [by destruct (startsWith _ _)|].
    destruct (c =? 102); [by destruct (startsWith _ _)|].
    destruct (c =? 110); [by destruct (startsWith _ _)|].
    by destruct (parse_number (c :: t)) as [[??]|].
  - intros s acc Hf. cbn [parse_elements].
    destruct (parse_value f s) as [v0 r0| |] eqn:Hv; [|done|].
    + apply Cv in Hv.
      destruct (skip_ws r0) as [|c t] eqn:Hs; [done|]. apply skip_ws_cons in Hs.
      destruct (c =? 44); [apply IHe; lia|]. by destruct (c =? 93).
    + exfalso. revert Hv. apply IHv. lia.
  - intros s acc Hf. cbn [parse_members].
    destruct (skip_ws s) as [|c t] eqn:Hs; [done|]. apply skip_ws_cons in Hs.
    destruct (c =? 34); [|done].
    destruct (parse_string t []) as [[k r1]|] eqn:Hp; [|done].
    apply parse_string_length in Hp.
    destruct (skip_ws r1) as [|c1 r2] eqn:Hs1; [done|]. apply skip_ws_cons in Hs1.
    destruct (c1 =? 58); [|done].
    destruct (parse_value f r2) as [v0 r3| |] eqn:Hv; [|done|].
    + apply Cv in Hv.
      destruct (skip_ws r3) as [|c3 r4] eqn:Hs3; [done|]. apply skip_ws_cons in Hs3.
      destruct (c3 =? 44); [apply IHm; lia|]. by destruct (c3 =? 125).
    + exfalso. revert Hv. apply IHv. lia.
Qed.

(** [JSON_parse] never runs out of its budget: it answers [None] for a
    syntax error only. *)
Lemma JSON_parse_budget text : parse_value (parse_fuel text) text <> PFuel.
Proof. apply parse_fuelled. unfold parse_fuel. lia. Qed.

(* ===================================================================== *)
(** ** The upstream data handler on whole frames *)
(* ===================================================================== *)

Section DecoderFacts.

Variable Number_toString : jnumber -> jsstring.

Local Abbreviation on_payload' := (on_payload Number_toString).
Local Abbreviation on_lines' := (on_lines Number_toString).
Local Abbreviation on_data' := (on_data Number_toString).
Local Abbreviation feed' := (feed Number_toString).
Local Abbreviation deltas' := (deltas Number_toString).
Local Abbreviation run' := (run Number_toString).

Lemma on_lines_other s clk l rest :
  startsWith l data_prefix = false ->
  on_lines' s clk (l :: rest) = on_lines' s clk rest.
Proof. intros H. cbn [on_lines]. by rewrite H. Qed.

Lemma on_lines_data s clk p rest :
  str_eqb p done_sentinel = false ->
  on_lines' s clk ((data_prefix ++ p) :: rest)
  = on_lines' (on_payload' s p) clk rest.
Proof.
  intros H. cbn [on_lines]. rewrite startsWith_app.
  change 6%nat with (length data_prefix). by rewrite slice_app, H.
Qed.

Lemma on_lines_done s clk rest :
  on_lines' s clk ((data_prefix ++ done_sentinel) :: rest) = on_done s clk.
Proof. reflexivity. Qed.

Lemma on_data_empty s clk : on_data' s clk [] = s.
Proof. reflexivity. Qed.

Lemma feed_app s fs gs : feed' (feed' s fs) gs = feed' s (fs ++ gs).
Proof. unfold feed. by rewrite fold_left_app. Qed.

(** A whole frame that is not the sentinel is handled as one payload, or
    passed over. *)
Lemma on_lines_frame s clk f rest :
  wf_frame f = true -> is_done f = false ->
  on_lines' s clk (frame_line f :: [] :: rest) = on_lines' (feed' s [f]) clk rest.
Proof.
  destruct f as [p| |l]; cbn [wf_frame is_done frame_line]; try done.
  - intros [_ Hp]%andb_prop _. apply negb_true_iff in Hp.
    rewrite on_lines_data by done. by rewrite on_lines_other.
  - intros [_ Hl]%andb_prop _. apply negb_true_iff in Hl.
    rewrite on_lines_other by done. by rewrite on_lines_other.
Qed.

Lemma on_data_frames s clk fs rest :
  plain_frames fs ->
  on_data' s clk (chunk_of fs ++ rest) = on_data' (feed' s fs) clk rest.
Proof.
  intros Hfs. revert s. induction Hfs as [|f fs [Hwf Hnd] _ IH]; intros s; [done|].
  unfold chunk_of in *. cbn [map concat]. rewrite <- app_assoc.
  unfold on_data in *. rewrite split_newline_frame by done.
  rewrite on_lines_frame by done. by rewrite IH.
Qed.

(** A chunk of whole frames without the sentinel: its payloads, in order. *)
Lemma on_data_plain s clk fs :
  plain_frames fs -> on_data' s clk (chunk_of fs) = feed' s fs.
Proof.
  intros Hfs. rewrite <- (app_nil_r (chunk_of fs)).
  by rewrite on_data_frames.
Qed.

(** A chunk whose first sentinel follows whole frames: the payloads before
    it, then the [[DONE]] branch; what follows in the chunk is not read. *)
Lemma on_data_done s clk fs rest :
  plain_frames fs ->
  on_data' s clk (chunk_of fs ++ frame_bytes FDone ++ rest)
  = on_done (feed' s fs) clk.
Proof.
  intros Hfs. rewrite on_data_frames by done.
  unfold on_data. by rewrite split_newline_frame.
Qed.

Lemma on_payload_fullResponse s p :
  fullResponse (on_payload' s p) = fullResponse s ++ delta_text Number_toString (FData p).
Proof.
  unfold on_payload, delta_text.
  destruct (payload_delta Number_toString p) as [[c t]|]; simpl; [done|].
  by rewrite app_nil_r.
Qed.

Lemma feed_fullResponse s fs :
  fullResponse (feed' s fs) = fullResponse s ++ deltas' fs.
Proof.
  revert s. induction fs as [|f fs IH]; intros s.
  - simpl. by rewrite app_nil_r.
  - change (feed' s (f :: fs)) with (feed' (feed' s [f]) fs).
    rewrite IH. unfold deltas. cbn [map concat]. rewrite app_assoc. f_equal.
    destruct f as [p| |l]; cbn [feed fold_left delta_text].
    + apply on_payload_fullResponse.
    + by rewrite app_nil_r.
    + by rewrite app_nil_r.
Qed.

(** Handling payloads touches neither the collection, nor the loaded
    document, nor the end of the response. *)
Lemma feed_keeps s fs :
  ss_db (feed' s fs) = ss_db s /\ ss_id (feed' s fs) = ss_id s /\
  ss_chat (feed' s fs) = ss_chat s /\
  selectedModel (feed' s fs) = selectedModel s /\
  sse_ended (ss_res (feed' s fs)) = sse_ended (ss_res s) /\
  sse_client_gone (ss_res (feed' s fs)) = sse_client_gone (ss_res s).
Proof.
  revert s. induction fs as [|f fs IH]; intros s; [done|].
  change (feed' s (f :: fs)) with (feed' (feed' s [f]) fs).
  destruct (IH (feed' s [f])) as (-> & -> & -> & -> & -> & ->).
  destruct f as [p| |l]; cbn [feed fold_left]; try done.
  unfold on_payload. destruct (payload_delta _ p) as [[c t]|]; [|done].
  cbn. unfold res_write.
  by destruct (sse_ended (ss_res s) || sse_client_gone (ss_res s)).
Qed.

(** A valid data frame contributes exactly its fragment. *)
Lemma delta_text_delivers p d :
  delivers p d -> delta_text Number_toString (FData p) = d.
Proof.
  intros (_ & v & Hp & Hv). unfold delta_text, payload_delta.
  rewrite Hp, Hv. by destruct d.
Qed.


Lemma delivers_wf p d : delivers p d -> wf_frame (FData p) = true.
Proof.
  intros (Hnl & v & Hp & _). cbn [wf_frame]. rewrite Hnl. simpl.
  apply negb_true_iff, str_eqb_false. intros ->. by vm_compute in Hp.
Qed.

(** Reads of whole frames without the sentinel, however grouped, come to
    their payloads in order. *)
Lemma run_plain s groups :
  plain_frames (concat (map snd groups)) ->
  run' s (data_events groups) = feed' s (concat (map snd groups)).
Proof.
  revert s. induction groups as [|[clk g] groups IH]; intros s Hfs; [done|].
  cbn [map concat snd] in *. apply Forall_app in Hfs as [Hg Hrest].
  unfold run in *. cbn [data_events map fold_left fst snd step].
  rewrite on_data_plain by done. fold (data_events groups).
  rewrite IH by done. apply feed_app.
Qed.



(** The assembled text only grows. *)
Lemma on_lines_extends s clk ls :
  exists post, fullResponse (on_lines' s clk ls) = fullResponse s ++ post.
Proof.
  revert s. induction ls as [|l ls IH]; intros s.
  - exists []. simpl. by rewrite app_nil_r.
  - cbn [on_lines]. destruct (startsWith l data_prefix); [|apply IH].
    destruct (str_eqb (slice 6 l) done_sentinel).
    + exists []. unfold on_done. simpl.
      destruct (save _ _ _ _) as [[d c]|]; simpl; by rewrite app_nil_r.
    + destruct (IH (on_payload' s (slice 6 l))) as [post Hpost].
      rewrite Hpost, on_payload_fullResponse, <- app_assoc. eauto.
Qed.

End DecoderFacts.

(* ===================================================================== *)
(** ** Validation and saving *)
(* ===================================================================== *)

Lemma valid_chat_push c m :
  valid_chat (push c m) = valid_chat c && valid_message m.
Proof.
  unfold valid_chat, push. cbn. rewrite forallb_app. cbn.
  rewrite andb_true_r. by rewrite !andb_assoc.
Qed.

Lemma valid_chat_calculateTotalTokens c :
  valid_chat (calculateTotalTokens c) = valid_chat c.
Proof. reflexivity. Qed.


Lemma save_valid db id c now :
  valid_chat c = true ->
  save db id c now = Some (<[id := set_lastActivity c now]> db, set_lastActivity c now).
Proof. intros H. unfold save. by rewrite H. Qed.

Lemma save_Some db id c now db' c' :
  save db id c now = Some (db', c') ->
  valid_chat c = true /\ c' = set_lastActivity c now /\ db' = <[id := c']> db.
Proof.
  unfold save. destruct (valid_chat c); [|done]. by intros [= <- <-].
Qed.

Lemma required_string_nonempty s : required_string s = true <-> s <> [].
Proof. by destruct s. Qed.

Lemma selected_model_nonempty r c :
  valid_chat c = true -> selected_model r c <> [].
Proof.
  intros Hc. unfold selected_model.
  destruct (req_model r) as [[|x m]|]; try done;
    unfold valid_chat in Hc; apply andb_prop in Hc as [Hc _];
    apply andb_prop in Hc as [_ Hc]; by apply required_string_nonempty.
Qed.


(* ===================================================================== *)
(** ** The streaming path *)
(* ===================================================================== *)

Section StreamClaims.

Variable Number_toString : jnumber -> jsstring.

Local Abbreviation on_data' := (on_data Number_toString).
Local Abbreviation on_lines' := (on_lines Number_toString).
Local Abbreviation feed' := (feed Number_toString).
Local Abbreviation deltas' := (deltas Number_toString).
Local Abbreviation run' := (run Number_toString).
Local Abbreviation step' := (step Number_toString).


(** C2 (amended).  The data handler splits every read on its own into
    lines at the newline characters and carries nothing over to the next
    read.  For every data frame that arrives whole within one read, after
    zero or more whole frames none of which is the sentinel, and before
    anything at all, the frame's content delta is extracted and appended to
    the assembled response. *)
Theorem C2_whole_frame_delta_appended s clk before p d rest :
  plain_frames before ->
  delivers p d ->
  exists post,
    fullResponse
      (on_data' s clk (chunk_of before ++ frame_bytes (FData p) ++ rest))
    = fullResponse s ++ deltas' before ++ d ++ post.
Proof.
  intros Hbefore Hp.
  assert (Hplain : plain_frames (before ++ [FData p])).
  { apply Forall_app. split; [done|]. constructor; [|constructor].
    split; [by eapply delivers_wf|done]. }
  replace (chunk_of before ++ frame_bytes (FData p) ++ rest)
    with (chunk_of (before ++ [FData p]) ++ rest).
  2:{ rewrite chunk_of_app, <- app_assoc. f_equal.
      unfold chunk_of. cbn [map concat]. by rewrite app_nil_r. }
  rewrite on_data_frames by done. unfold on_data.
  destruct (on_lines_extends Number_toString
              (feed' s (before ++ [FData p])) clk (split_newline rest))
    as [post Hpost].
  exists post. rewrite Hpost, feed_fullResponse. unfold deltas.
  rewrite map_app, concat_app. cbn [map concat].
  rewrite (delta_text_delivers _ p d Hp), app_nil_r.
  by rewrite <- !app_assoc.
Qed.




Lemma same_but_client_refl s : same_but_client s s.
Proof. by repeat split. Qed.

Lemma on_lines_same_but_client a b clk ls :
  same_but_client a b ->
  same_but_client (on_lines' a clk ls) (on_lines' b clk ls).
Proof.
  revert a b. induction ls as [|l ls IH]; intros a b Hab; [done|].
  cbn [on_lines]. destruct (startsWith l data_prefix); [|by apply IH].
  destruct (str_eqb (slice 6 l) done_sentinel).
  - destruct Hab as (Hdb & Hid & Hchat & Hsel & Hfull & Hend).
    unfold on_done. rewrite Hdb, Hid, Hchat, Hsel, Hfull.
    destruct (save _ _ _ _) as [[d c]|]; by repeat split.
  - apply IH. destruct Hab as (Hdb & Hid & Hchat & Hsel & Hfull & Hend).
    unfold on_payload. destruct (payload_delta _ _) as [[c t]|]; [|by repeat split].
    repeat split; cbn; try done.
    + by rewrite Hfull.
    + unfold res_write.
      destruct (sse_ended (ss_res a) || _), (sse_ended (ss_res b) || _); by cbn.
Qed.

Lemma step_same_but_client a b e :
  same_but_client a b -> same_but_client (step' a e) (step' b e).
Proof.
  intros Hab. destruct e as [clk chunk| |]; cbn [step].
  - by apply on_lines_same_but_client.
  - destruct Hab as (Hdb & Hid & Hchat & Hsel & Hfull & Hend). by repeat split.
  - destruct Hab as (Hdb & Hid & Hchat & Hsel & Hfull & Hend). by repeat split.
Qed.

Lemma step_close_same_but_client a b :
  same_but_client a b -> same_but_client (step' a ClientClose) b.
Proof.
  intros (Hdb & Hid & Hchat & Hsel & Hfull & Hend). by repeat split.
Qed.

(** C9 (amended).  The closing of the client's connection is not observed
    by the streaming handler: the reads of the upstream go on, and the
    collection, the loaded document, the assembled text and the end of the
    response are what they would be had the client stayed; so the message
    assembled when the sentinel arrives is saved all the same. *)
Theorem C9_client_close_not_observed s es :
  same_but_client
    (run' s es)
    (run' s (List.filter (fun e => negb (is_close e)) es)).
Proof.
  assert (H : forall a b, same_but_client a b ->
            same_but_client (run' a es)
              (run' b (List.filter (fun e => negb (is_close e)) es))).
  { induction es as [|e es IH]; intros a b Hab; [done|].
    unfold run in *. cbn [List.filter fold_left].
    destruct e as [clk chunk| |]; cbn [is_close negb fold_left].
    - apply IH. by apply (step_same_but_client a b (Data clk chunk)).
    - apply IH. by apply (step_same_but_client a b UpstreamError).
    - apply IH. by apply step_close_same_but_client. }
  apply H, same_but_client_refl.
Qed.

End StreamClaims.

Ltac solve_delivers :=
  split; [vm_compute; reflexivity | eexists; split; vm_compute; reflexivity].

Ltac solve_plain :=
  repeat (constructor; [split; vm_compute; reflexivity|]); constructor.

Lemma C2_whole_frame_delta_appended_witness :
  plain_frames [FOther (jstr ": keep-alive")] /\
  delivers payload_hel (jstr "Hel") /\
  exists post,
    fullResponse
      (on_data sample_Number_toString sample_session sample_clock
         (chunk_of [FOther (jstr ": keep-alive")]
          ++ frame_bytes (FData payload_hel) ++ jstr "data: {"))
    = fullResponse sample_session
      ++ deltas sample_Number_toString [FOther (jstr ": keep-alive")]
      ++ jstr "Hel" ++ post.
Proof.
  assert (H1 : plain_frames [FOther (jstr ": keep-alive")]) by solve_plain.
  assert (H2 : delivers payload_hel (jstr "Hel")) by solve_delivers.
  split; [exact H1|]. split; [exact H2|].
  exact (C2_whole_frame_delta_appended sample_Number_toString sample_session
           sample_clock _ _ _ (jstr "data: {") H1 H2).
Defined.

(** C2, as stated, fails: the frame of "Hel" cut in two inside its payload
    leaves the session as it was, for every engine, session and clock; the
    first read holds a data line whose payload does not parse, the second
    holds no data line. *)
Lemma C2_split_frame_delta_lost :
  delivers payload_hel (jstr "Hel") /\
  split_part1 ++ split_part2 = frame_bytes (FData payload_hel) /\
  (forall nts s clk1 clk2,
     on_data nts (on_data nts s clk1 split_part1) clk2 split_part2 = s) /\
  fullResponse
    (run sample_Number_toString sample_session
       [Data sample_clock split_part1; Data sample_clock split_part2]) = [] /\
  fullResponse
    (run sample_Number_toString sample_session
       [Data sample_clock (frame_bytes (FData payload_hel))]) = jstr "Hel".
Proof.
  split; [solve_delivers|]. split; [vm_compute; reflexivity|].
  split; [|split; vm_compute; reflexivity].
  intros nts s clk1 clk2.
  assert (H1 : on_data nts s clk1 split_part1 = s).
  { unfold on_data, split_part1.
    rewrite split_newline_line by (vm_compute; reflexivity).
    rewrite on_lines_data by (vm_compute; reflexivity).
    cbn [on_lines]. unfold on_payload, payload_delta.
    replace (JSON_parse _) with (@None json) by (vm_compute; reflexivity).
    reflexivity. }
  rewrite H1. unfold on_data.
  replace (split_newline split_part2)
    with [jtext "tent':'Hel'}}]}"; []; []] by (vm_compute; reflexivity).
  rewrite !on_lines_other by (vm_compute; reflexivity). reflexivity.
Qed.





(** C9, as stated, fails: the client leaves after the first fragment, the
    upstream goes on to the sentinel, and the assistant message "Hello" is
    in the stored conversation. *)
Lemma C9_message_saved_after_disconnect :
  post_stream sample_db sample_user sample_request sample_clock OpenResolved
  = Reading sample_session /\
  forall nts,
    messages <$>
      (ss_db (run nts sample_session
                [Data sample_clock (chunk_of [FData payload_hel]);
                 ClientClose;
                 Data sample_clock (chunk_of [FData payload_lo; FDone])])
       !! sample_id)
    = Some [user_message (jstr "hi") 202%Z;
            stream_assistant_message (jstr "Hello")
              (jstr "openai/gpt-3.5-turbo") 251%Z].
Proof.
  split; [vm_compute; reflexivity|]. intros nts. vm_compute. reflexivity.
Qed.

(* ===================================================================== *)
(** ** Trimming *)
(* ===================================================================== *)

Lemma trim_start_idem s : trim_start (trim_start s) = trim_start s.
Proof.
  induction s as [|c s IH]; [done|].
  cbn [trim_start]. destruct (is_js_space c) eqn:Hc; [done|].
  cbn [trim_start]. by rewrite Hc.
Qed.

Lemma trim_start_length s : (length (trim_start s) <= length s)%nat.
Proof.
  induction s as [|c s IH]; [done|].
  cbn [trim_start]. destruct (is_js_space c); cbn; lia.
Qed.

Lemma trim_start_fixed_head c s :
  trim_start (c :: s) = c :: s -> is_js_space c = false.
Proof.
  cbn [trim_start]. destruct (is_js_space c); [|done].
  intros H. pose proof (trim_start_length s) as Hl. rewrite H in Hl.
  cbn in Hl. lia.
Qed.

Lemma trim_start_head c s : is_js_space c = false -> trim_start (c :: s) = c :: s.
Proof. intros H. cbn [trim_start]. by rewrite H. Qed.

(** What [trim_start] removes is a prefix. *)
Lemma trim_start_suffix s : exists sp, s = sp ++ trim_start s.
Proof.
  induction s as [|c s IH]; [by exists []|].
  destruct IH as [sp IH].
  cbn [trim_start]. destruct (is_js_space c).
  - exists (c :: sp). cbn. by rewrite <- IH.
  - by exists [].
Qed.


Lemma trim_trimmed s : trimmed s -> trim s = s.
Proof. intros [H1 H2]. unfold trim. by rewrite H1, H2, rev_involutive. Qed.

Lemma trimmed_trim s : trimmed (trim s).
Proof.
  unfold trimmed, trim. rewrite rev_involutive, trim_start_idem. split; [|done].
  destruct (trim_start_suffix (rev (trim_start s))) as [sp Hsp].
  set (z := trim_start (rev (trim_start s))) in *.
  assert (Hy : trim_start s = rev z ++ rev sp).
  { rewrite <- rev_app_distr, <- Hsp. by rewrite rev_involutive. }
  destruct (rev z) as [|c r] eqn:Hz; [done|].
  apply trim_start_head.
  apply (trim_start_fixed_head c (r ++ rev sp)).
  change (c :: r ++ rev sp) with ((c :: r) ++ rev sp).
  rewrite <- Hy. apply trim_start_idem.
Qed.

(** The title [generateTitle] derives from a trimmed text is trimmed. *)
Lemma trimmed_truncated s :
  trimmed s -> s <> [] ->
  trimmed (substring0 50 s ++ (if 50 <? str_length s then jstr "..." else [])).
Proof.
  intros [H1 H2] Hne. unfold substring0, str_length.
  destruct (50 <? N.of_nat (length s)) eqn:Hlen.
  - apply N.ltb_lt in Hlen. split.
    + destruct s as [|c s]; [done|]. cbn [firstn app].
      apply trim_start_head. by apply (trim_start_fixed_head c s).
    + rewrite rev_app_distr. reflexivity.
  - apply N.ltb_ge in Hlen. rewrite firstn_all2 by lia.
    by rewrite app_nil_r.
Qed.

Lemma trim_nonempty s : trim s <> [] -> s <> [].
Proof. intros H ->. by apply H. Qed.

(* ===================================================================== *)
(** ** The conversation store *)
(* ===================================================================== *)

Lemma sum_tokens_app ms m : sum_tokens (ms ++ [m]) = sum_tokens ms + tokens m.
Proof. unfold sum_tokens. by rewrite fold_left_app. Qed.

(** [calculateTotalTokens] establishes the invariant. *)
Lemma calculateTotalTokens_sum c :
  totalTokens (calculateTotalTokens c)
  = sum_tokens (messages (calculateTotalTokens c)).
Proof. reflexivity. Qed.

(** The add-message operation leaves the invariant established whenever it
    stores a message. *)
Lemma post_messages_totalTokens db uid chatId b clk db' emitted res :
  post_messages db uid chatId b clk = (db', emitted, res) ->
  status res = 201 ->
  exists id c', castObjectId chatId = Some id /\ db' !! id = Some c' /\
    totalTokens c' = sum_tokens (messages c').
Proof.
  unfold post_messages.
  destruct (min_length_1 _); [|by intros [= <- <- <-]].
  destruct (parse_role _) as [ro|]; [|by intros [= <- <- <-]].
  destruct (castObjectId chatId) as [id|]; [|by intros [= <- <- <-]].
  destruct (findOne db id uid) as [c0|]; [|by intros [= <- <- <-]].
  destruct (save _ _ _ _) as [[d c3]|] eqn:Hsave; [|by intros [= <- <- <-]].
  intros [= <- <- <-] _. exists id, c3. split; [done|].
  apply save_Some in Hsave as (_ & -> & ->). rewrite lookup_insert_eq.
  split; [done|]. cbn.
  by destruct (str_eqb _ _ && _ && _).
Qed.

(** The assistant append of the non-streaming path does, too. *)
Lemma post_chat_reply_totalTokens db uid r clk text usage db' emitted res :
  post_chat db uid r clk (Envelope text usage) = (db', emitted, res) ->
  status res = 200 ->
  exists id c', castObjectId (req_chatId r) = Some id /\ db' !! id = Some c' /\
    totalTokens c' = sum_tokens (messages c').
Proof.
  unfold post_chat.
  destruct (negb _); [by intros [= <- <- <-]|].
  destruct (castObjectId _) as [id|]; [|by intros [= <- <- <-]].
  destruct (findOne db id uid) as [c0|]; [|by intros [= <- <- <-]].
  destruct (save db _ _ _) as [[db1 c1]|]; [|by intros [= <- <- <-]].
  destruct (save db1 _ _ _) as [[db2 c2]|] eqn:Hsave.
  - intros [= <- <- <-] _. exists id, c2. split; [done|].
    apply save_Some in Hsave as (_ & -> & ->). by rewrite lookup_insert_eq.
  - clear Hsave. unfold on_api_error.
    destruct (save _ _ _ _) as [[d c]|]; by intros [= <- <- <-].
Qed.

(** C1.  The invariant [totalTokens = sum of tokens] does not survive the
    user-message append of [POST /chat]: the message is pushed and saved
    without [calculateTotalTokens], and the error placeholder that follows a
    failed provider call is pushed the same way.  On a fresh conversation,
    the message "hi" (one token) and a failing provider leave a stored log
    whose tokens sum to 1 under a [totalTokens] of 0. *)
Theorem C1_user_append_leaves_totalTokens_stale :
  exists c,
    (post_chat sample_db sample_user sample_request sample_clock
       (Rejected None)).1.1 !! sample_id = Some c /\
    messages c = [user_message (jstr "hi") 61%Z;
                  error_message (jstr "openai/gpt-3.5-turbo") 137%Z] /\
    totalTokens c = 0 /\
    sum_tokens (messages c) = 1.
Proof. eexists. split; [vm_compute; reflexivity|]. by vm_compute. Qed.

(* ===================================================================== *)
(** ** Title generation *)
(* ===================================================================== *)

Lemma parse_role_user : parse_role (jstr "user") = Some RoleUser.
Proof. by vm_compute. Qed.

Lemma truncated_length s :
  (length (substring0 50 s
           ++ (if (50 <? str_length s)%N then jstr "..." else []))
   <= 53)%nat.
Proof.
  unfold substring0. rewrite length_app, length_firstn.
  destruct (50 <? str_length s);
    [change (length (jstr "...")) with 3%nat
    |change (length (@nil N)) with 0%nat]; lia.
Qed.

Lemma truncated_nonempty s :
  s <> [] ->
  substring0 50 s ++ (if 50 <? str_length s then jstr "..." else []) <> [].
Proof. by destruct s. Qed.

(** What the add-message operation answers for a user message with
    non-blank content: 201, with the title the document holds when it is
    saved.  On an empty log under the placeholder title that is the content
    cut at 50 characters, with the ellipsis when the content is longer; on
    a log that is not empty it is the title as it was. *)
Lemma add_message_answers_title db uid chatId b clk id c :
  castObjectId chatId = Some id ->
  findOne db id uid = Some c ->
  valid_chat c = true ->
  body_role b = jstr "user" ->
  trim (body_content b) <> [] ->
  exists m t total,
    (post_messages db uid chatId b clk).2
    = {| status := 201; body := BAdded m id t total |} /\
    role m = RoleUser /\ content m = trim (body_content b) /\
    (title c = default_title -> messages c = [] ->
       t = substring0 50 (trim (body_content b))
           ++ (if 50 <? str_length (trim (body_content b))
               then jstr "..." else [])) /\
    (messages c <> [] -> t = title c).
Proof.
  intros Hid Hfind Hvalid Hrole Hcontent.
  unfold post_messages.
  destruct (body_content b) as [|x raw] eqn:Hraw; [done|]. cbn [min_length_1].
  rewrite <- Hraw in Hcontent.
  rewrite Hrole, parse_role_user, Hid, Hfind, <- Hraw.
  set (content_ := trim (body_content b)) in *.
  set (m := {| role := RoleUser; content := content_;
               timestamp := clk 445%nat; model := None;
               tokens := default 0 (body_tokens b) |}).
  assert (Hm : valid_message m = true).
  { unfold valid_message. cbn. rewrite andb_true_r.
    by apply required_string_nonempty. }
  assert (Hchat1 : valid_chat (calculateTotalTokens (push c m)) = true).
  { by rewrite valid_chat_calculateTotalTokens, valid_chat_push, Hvalid, Hm. }
  destruct (messages c) as [|m0 ms] eqn:Hms.
  - (* the log was empty *)
    destruct (str_eqb (title c) default_title) eqn:Htitle.
    + (* the title is derived *)
      set (t := substring0 50 content_
                ++ (if 50 <? str_length content_ then jstr "..." else [])).
      assert (Hgen : generateTitle (calculateTotalTokens (push c m)) = t).
      { unfold generateTitle.
        change (messages (calculateTotalTokens (push c m)))
          with (messages c ++ [m]).
        by rewrite Hms. }
      assert (Htrim : trim t = t).
      { apply trim_trimmed, trimmed_truncated; [apply trimmed_trim|done]. }
      replace (str_eqb (title (calculateTotalTokens (push c m))) default_title
               && role_eqb RoleUser RoleUser
               && (length (messages (calculateTotalTokens (push c m))) =? 1)%nat)
        with true
        by (change (title (calculateTotalTokens (push c m))) with (title c);
            change (messages (calculateTotalTokens (push c m)))
              with (messages c ++ [m]);
            by rewrite Htitle, Hms).
      rewrite Hgen. rewrite save_valid.
      2:{ unfold valid_chat in *. cbn in *. rewrite Htrim.
          apply andb_prop in Hchat1 as [Hchat1 Hmsgs].
          apply andb_prop in Hchat1 as [_ Hmodel].
          rewrite Hmodel, Hmsgs, !andb_true_r. apply andb_true_intro. split.
          - apply required_string_nonempty. by apply truncated_nonempty.
          - apply Nat.leb_le.
            transitivity 53%nat; [exact (truncated_length content_)|lia]. }
      eexists m, _, _. cbn [snd]. split; [reflexivity|].
      split; [done|]. split; [done|].
      split; [|done]. intros _ _. cbn. exact Htrim.
    + (* another title: nothing to derive *)
      replace (str_eqb (title (calculateTotalTokens (push c m))) default_title)
        with false
        by (change (title (calculateTotalTokens (push c m))) with (title c);
            by rewrite Htitle).
      cbn [andb]. rewrite save_valid by done.
      eexists m, _, _. cbn [snd]. split; [reflexivity|].
      split; [done|]. split; [done|].
      split; [|done]. intros Ht. apply str_eqb_false in Htitle. done.
  - (* the log was not empty *)
    replace (length (messages (calculateTotalTokens (push c m))) =? 1)%nat
      with false.
    2:{ change (messages (calculateTotalTokens (push c m)))
          with (messages c ++ [m]).
        rewrite Hms, length_app. cbn [length].
        symmetry. apply Nat.eqb_neq. lia. }
    rewrite andb_false_r. rewrite save_valid by done.
    eexists m, _, _. cbn [snd]. split; [reflexivity|].
    split; [done|]. split; [done|].
    split; [done|]. intros _. reflexivity.
Qed.

(** The derived title of the 60-character text: its first 50 characters and
    the ellipsis. *)
Example long_title :
  title <$>
    ((post_messages sample_db sample_user sample_chatId long_body
        sample_clock).1.1 !! sample_id)
  = Some (jstr "Explain quicksort in detail please, with a worked ...").
Proof. vm_compute. reflexivity. Qed.

(** C5.  The code departs from the rule its own comment gives ("title
    from first user message if title is New Chat").  In a conversation that
    an assistant greeting opened, under the placeholder title, the first
    user message is appended by the add-message operation and the title
    remains the placeholder: the guard asks for a log of length one.  The
    stored log's first user message is the one appended, and
    [generateTitle] on the stored document gives the title that was due. *)
Theorem C5_first_user_message_after_greeting :
  exists c,
    (post_messages greeted_db sample_user sample_chatId sample_body
       sample_clock).1.1 !! sample_id = Some c /\
    messages c =
      messages greeted_chat
      ++ [{| role := RoleUser; content := jstr "Explain quicksort";
             timestamp := 445%Z; model := None; tokens := 5 |}] /\
    find (fun m => role_eqb (role m) RoleUser) (messages greeted_chat) = None /\
    title greeted_chat = default_title /\
    title c = default_title /\
    generateTitle c = jstr "Explain quicksort".
Proof.
  eexists. split; [vm_compute; reflexivity|].
  repeat split; vm_compute; reflexivity.
Qed.

(** The user-message appends of [POST /chat] and of [POST /stream] derive no
    title at all. *)
Example post_chat_keeps_placeholder_title :
  title <$>
    ((post_chat sample_db sample_user sample_request sample_clock
        (Envelope (Some (jstr "Hello")) (Some 42))).1.1 !! sample_id)
  = Some default_title.
Proof. vm_compute. reflexivity. Qed.

(* ===================================================================== *)
(** ** Soft delete *)
(* ===================================================================== *)

Lemma findOne_Some db id uid c :
  findOne db id uid = Some c ->
  db !! id = Some c /\ user c = uid /\ isActive c = true.
Proof.
  unfold findOne. destruct (db !! id) as [c0|]; [|done].
  destruct (user c0 =? uid) eqn:Hu; [|done].
  destruct (isActive c0) eqn:Ha; [|done].
  intros [= <-]. by apply N.eqb_eq in Hu.
Qed.

(** No live conversation: none stored under the identifier, another
    owner's, or a soft-deleted one. *)
Lemma findOne_None db id uid :
  findOne db id uid = None <->
  db !! id = None \/
  exists c, db !! id = Some c /\ (user c <> uid \/ isActive c = false).
Proof.
  unfold findOne. destruct (db !! id) as [c|]; [|by split; [left|]].
  destruct (user c =? uid) eqn:Hu; destruct (isActive c) eqn:Ha; cbn;
    split; try done.
  - intros [|(c' & [= <-] & [H|H])]; try done.
    + apply N.eqb_eq in Hu. done.
    + congruence.
  - intros _. right. exists c. eauto.
  - intros _. right. exists c. split; [done|]. left. by apply N.eqb_neq.
  - intros _. right. exists c. eauto.
Qed.

(** Every append to a conversation that is not live is answered NotFound
    and writes nothing. *)
Lemma post_messages_not_found db uid chatId b clk id :
  castObjectId chatId = Some id ->
  findOne db id uid = None ->
  min_length_1 (body_content b) = true ->
  parse_role (body_role b) <> None ->
  post_messages db uid chatId b clk = (db, [], chat_not_found).
Proof.
  intros Hid Hfind Hlen Hrole. unfold post_messages.
  rewrite Hlen. destruct (parse_role _); [|done]. by rewrite Hid, Hfind.
Qed.

Lemma post_chat_not_found db uid r clk up id :
  castObjectId (req_chatId r) = Some id ->
  findOne db id uid = None ->
  valid_request r = true ->
  post_chat db uid r clk up = (db, [], chat_not_found).
Proof.
  intros Hid Hfind Hvalid. unfold post_chat. by rewrite Hvalid, Hid, Hfind.
Qed.

Lemma post_stream_not_found db uid r clk opening id :
  castObjectId (req_chatId r) = Some id ->
  findOne db id uid = None ->
  valid_request r = true ->
  post_stream db uid r clk opening
  = Closed db (sse_fail writeHead_sse (jstr "Chat not found")).
Proof.
  intros Hid Hfind Hvalid. unfold post_stream. by rewrite Hvalid, Hid, Hfind.
Qed.

(** C6 (amended).  A soft delete of a live conversation succeeds, clears the
    liveness flag and keeps the stored messages.  A second soft delete of
    the same conversation changes nothing in the collection but is answered
    NotFound, not with the result of the first.  After the soft delete every
    append to that conversation (add-message, [POST /chat], [POST /stream])
    is refused with NotFound and writes nothing. *)
Theorem C6_soft_delete db uid chatId id c :
  castObjectId chatId = Some id ->
  findOne db id uid = Some c ->
  let db1 := (delete_chat db uid chatId).1 in
  delete_chat db uid chatId
  = (<[id := set_isActive c false]> db,
     {| status := 200; body := BDeleted (jstr "Chat deleted successfully") |}) /\
  (exists c1, db1 !! id = Some c1 /\ messages c1 = messages c /\
              isActive c1 = false) /\
  delete_chat db1 uid chatId = (db1, chat_not_found) /\
  (forall b clk,
     min_length_1 (body_content b) = true ->
     parse_role (body_role b) <> None ->
     post_messages db1 uid chatId b clk = (db1, [], chat_not_found)) /\
  (forall r clk up,
     req_chatId r = chatId -> valid_request r = true ->
     post_chat db1 uid r clk up = (db1, [], chat_not_found)) /\
  (forall r clk opening,
     req_chatId r = chatId -> valid_request r = true ->
     post_stream db1 uid r clk opening
     = Closed db1 (sse_fail writeHead_sse (jstr "Chat not found"))).
Proof.
  intros Hid Hfind db1.
  assert (Hdel : delete_chat db uid chatId
                 = (<[id := set_isActive c false]> db,
                    {| status := 200;
                       body := BDeleted (jstr "Chat deleted successfully") |})).
  { unfold delete_chat, findOneAndDeactivate. by rewrite Hid, Hfind. }
  assert (Hdb1 : db1 = <[id := set_isActive c false]> db).
  { unfold db1. by rewrite Hdel. }
  assert (Hgone : findOne db1 id uid = None).
  { apply findOne_None. right. exists (set_isActive c false).
    rewrite Hdb1, lookup_insert_eq. split; [done|]. by right. }
  split; [exact Hdel|]. split.
  { exists (set_isActive c false). rewrite Hdb1, lookup_insert_eq. done. }
  split.
  { unfold delete_chat, findOneAndDeactivate. by rewrite Hid, Hgone. }
  split.
  { intros b clk Hlen Hrole. by eapply post_messages_not_found. }
  split.
  { intros r clk up <- Hvalid. by eapply post_chat_not_found. }
  { intros r clk opening <- Hvalid. by eapply post_stream_not_found. }
Qed.

Lemma C6_soft_delete_witness :
  castObjectId sample_chatId = Some sample_id /\
  findOne sample_db sample_id sample_user = Some sample_chat /\
  let db1 := (delete_chat sample_db sample_user sample_chatId).1 in
  delete_chat sample_db sample_user sample_chatId
  = (<[sample_id := set_isActive sample_chat false]> sample_db,
     {| status := 200; body := BDeleted (jstr "Chat deleted successfully") |}) /\
  (exists c1, db1 !! sample_id = Some c1 /\
              messages c1 = messages sample_chat /\ isActive c1 = false) /\
  delete_chat db1 sample_user sample_chatId = (db1, chat_not_found) /\
  (forall b clk,
     min_length_1 (body_content b) = true ->
     parse_role (body_role b) <> None ->
     post_messages db1 sample_user sample_chatId b clk
     = (db1, [], chat_not_found)) /\
  (forall r clk up,
     req_chatId r = sample_chatId -> valid_request r = true ->
     post_chat db1 sample_user r clk up = (db1, [], chat_not_found)) /\
  (forall r clk opening,
     req_chatId r = sample_chatId -> valid_request r = true ->
     post_stream db1 sample_user r clk opening
     = Closed db1 (sse_fail writeHead_sse (jstr "Chat not found"))).
Proof.
  assert (H1 : castObjectId sample_chatId = Some sample_id)
    by (vm_compute; reflexivity).
  assert (H2 : findOne sample_db sample_id sample_user = Some sample_chat)
    by (vm_compute; reflexivity).
  split; [exact H1|]. split; [exact H2|].
  exact (C6_soft_delete sample_db sample_user sample_chatId sample_id
           sample_chat H1 H2).
Defined.

(** C6, as stated, fails: the second soft delete of a conversation is
    answered 404 where the first was answered 200. *)
Lemma C6_second_delete_not_found :
  let first := delete_chat sample_db sample_user sample_chatId in
  let second := delete_chat first.1 sample_user sample_chatId in
  status first.2 = 200 /\
  second.2 = chat_not_found /\
  status second.2 = 404 /\
  second.1 = first.1.
Proof. vm_compute. repeat split; reflexivity. Qed.

(* ===================================================================== *)
(** ** The non-streaming path *)
(* ===================================================================== *)



(** On the non-streaming path, when the provider call is rejected (a
    status outside 2xx, a transport error) or its envelope has no
    [choices[0].message] to read, the stored log gains the user message and
    one placeholder assistant message and nothing else; the placeholder is
    broadcast to the conversation's room; and the caller is answered 500
    with the unavailability notice and, as the error, the message of the
    provider's error body when the rejection carries one, "Unknown error"
    otherwise. *)
Lemma call_failure_placeholder db uid r clk up d id c :
  valid_request r = true ->
  castObjectId (req_chatId r) = Some id ->
  findOne db id uid = Some c ->
  valid_chat c = true ->
  trim (req_message r) <> [] ->
  up = Rejected d \/ (up = Unreadable /\ d = None) ->
  let userMessage := user_message (trim (req_message r)) (clk 61%nat) in
  let placeholder := error_message (selected_model r c) (clk 137%nat) in
  exists c',
    post_chat db uid r clk up
    = (<[id := c']> db,
       [{| room := req_chatId r; emit_chatId := id; emit_message := userMessage |};
        {| room := req_chatId r; emit_chatId := id; emit_message := placeholder |}],
       {| status := 500;
          body := BChatFail (jstr "AI service temporarily unavailable")
                    match d with
                    | Some (x :: text) => x :: text
                    | _ => jstr "Unknown error"
                    end |}) /\
    messages c' = messages c ++ [userMessage; placeholder] /\
    role placeholder = RoleAssistant /\
    content placeholder
    = jstr "Sorry, I encountered an error while processing your request. Please try again.".
Proof.
  intros Hvalid Hid Hfind Hc Hmsg Hfail userMessage placeholder.
  assert (Huser : valid_message userMessage = true).
  { unfold valid_message. cbn. rewrite andb_true_r.
    by apply required_string_nonempty. }
  assert (Hc1 : valid_chat (push c userMessage) = true).
  { by rewrite valid_chat_push, Hc, Huser. }
  assert (Hplace : valid_message placeholder = true).
  { unfold valid_message. cbn.
    apply required_string_nonempty. by apply selected_model_nonempty. }
  set (c1 := set_lastActivity (push c userMessage) (clk 66%nat)).
  assert (Hc2 : valid_chat (push c1 placeholder) = true).
  { by rewrite valid_chat_push, Hplace, andb_true_r. }
  exists (set_lastActivity (push c1 placeholder) (clk 143%nat)).
  split.
  - unfold post_chat. rewrite Hvalid, Hid, Hfind. cbn [negb].
    fold userMessage. rewrite save_valid by done. fold c1.
    assert (Herr : on_api_error (<[id:=c1]> db) id (req_chatId r) c1
                     (selected_model r c1)
                     [{| room := req_chatId r; emit_chatId := id;
                         emit_message := userMessage |}] d clk
                   = (<[id := set_lastActivity (push c1 placeholder) (clk 143%nat)]> db,
                      [{| room := req_chatId r; emit_chatId := id;
                          emit_message := userMessage |};
                       {| room := req_chatId r; emit_chatId := id;
                          emit_message := placeholder |}],
                      {| status := 500;
                         body := BChatFail
                                   (jstr "AI service temporarily unavailable")
                                   match d with
                                   | Some (x :: text) => x :: text
                                   | _ => jstr "Unknown error"
                                   end |})).
    { unfold on_api_error.
      change (error_message (selected_model r c1) (clk 137%nat)) with placeholder.
      rewrite save_valid by done. by rewrite insert_insert_eq. }
    destruct Hfail as [->|[-> ->]]; exact Herr.
  - split; [|done]. cbn. by rewrite <- app_assoc.
Qed.

(** The rejection that carries "Rate limit exceeded" is reported as such. *)
Example rate_limit_reported :
  (post_chat sample_db sample_user sample_request sample_clock
     (Rejected (Some (jstr "Rate limit exceeded")))).2
  = {| status := 500;
       body := BChatFail (jstr "AI service temporarily unavailable")
                 (jstr "Rate limit exceeded") |}.
Proof. vm_compute. reflexivity. Qed.

(** C7.  The code departs from the claim on a malformed response of one
    kind: a 2xx envelope whose [choices[0].message] carries no text ([null],
    absent or empty).  Line 102 reads it without an error, the assistant
    message built from it is pushed and fails the schema's [required]
    validator at the save of line 116, and the [catch] block, which pushes
    the placeholder onto the same document, fails at its own save for the
    same reason.  So the stored log gains the user message only: no
    placeholder is stored, none is broadcast, and the caller is answered
    500 "Server error", without the unavailability notice or any error
    detail. *)
Theorem C7_textless_envelope_no_placeholder db uid r clk text usage id c :
  valid_request r = true ->
  castObjectId (req_chatId r) = Some id ->
  findOne db id uid = Some c ->
  valid_chat c = true ->
  trim (req_message r) <> [] ->
  text = None \/ text = Some [] ->
  let userMessage := user_message (trim (req_message r)) (clk 61%nat) in
  exists c',
    post_chat db uid r clk (Envelope text usage)
    = (<[id := c']> db,
       [{| room := req_chatId r; emit_chatId := id;
           emit_message := userMessage |}],
       {| status := 500; body := BMessage (jstr "Server error") |}) /\
    messages c' = messages c ++ [userMessage].
Proof.
  intros Hvalid Hid Hfind Hc Hmsg Htext userMessage.
  assert (Huser : valid_message userMessage = true).
  { unfold valid_message. cbn. rewrite andb_true_r.
    by apply required_string_nonempty. }
  assert (Hc1 : valid_chat (push c userMessage) = true).
  { by rewrite valid_chat_push, Hc, Huser. }
  set (c1 := set_lastActivity (push c userMessage) (clk 66%nat)).
  exists c1. split; [|done].
  unfold post_chat. rewrite Hvalid, Hid, Hfind. cbn [negb].
  fold userMessage. rewrite save_valid by done. fold c1.
  set (reply := chat_assistant_message text usage (selected_model r c1)
                  (clk 109%nat)).
  assert (Hreply : valid_message reply = false).
  { unfold valid_message, reply. by destruct Htext as [-> | ->]. }
  assert (Hsave : forall c2 now,
            In reply (messages c2) -> save (<[id := c1]> db) id c2 now = None).
  { intros c2 now Hin. unfold save, valid_chat.
    replace (forallb valid_message (messages c2)) with false;
      [by rewrite andb_false_r|].
    symmetry. apply not_true_is_false. intros Hall.
    rewrite forallb_forall in Hall. specialize (Hall reply Hin). congruence. }
  rewrite Hsave.
  2:{ cbn. apply in_or_app. right. by left. }
  unfold on_api_error. rewrite Hsave; [done|].
  cbn. apply in_or_app. left. apply in_or_app. right. by left.
Qed.

Lemma C7_textless_envelope_no_placeholder_witness :
  valid_request sample_request = true /\
  castObjectId (req_chatId sample_request) = Some sample_id /\
  findOne sample_db sample_id sample_user = Some sample_chat /\
  valid_chat sample_chat = true /\
  trim (req_message sample_request) <> [] /\
  exists c',
    post_chat sample_db sample_user sample_request sample_clock
      (Envelope None (Some 3))
    = (<[sample_id := c']> sample_db,
       [{| room := req_chatId sample_request; emit_chatId := sample_id;
           emit_message := user_message (jstr "hi") 61%Z |}],
       {| status := 500; body := BMessage (jstr "Server error") |}) /\
    messages c' = messages sample_chat ++ [user_message (jstr "hi") 61%Z].
Proof.
  assert (H1 : valid_request sample_request = true) by (vm_compute; reflexivity).
  assert (H2 : castObjectId (req_chatId sample_request) = Some sample_id)
    by (vm_compute; reflexivity).
  assert (H3 : findOne sample_db sample_id sample_user = Some sample_chat)
    by (vm_compute; reflexivity).
  assert (H4 : valid_chat sample_chat = true) by (vm_compute; reflexivity).
  assert (H5 : trim (req_message sample_request) <> [])
    by (vm_compute; discriminate).
  split; [exact H1|]. split; [exact H2|]. split; [exact H3|].
  split; [exact H4|]. split; [exact H5|].
  exact (C7_textless_envelope_no_placeholder sample_db sample_user
           sample_request sample_clock None (Some 3) sample_id sample_chat
           H1 H2 H3 H4 H5 (or_introl eq_refl)).
Defined.

(* ===================================================================== *)
(** ** The two paths compared *)
(* ===================================================================== *)


(** What [POST /stream] has stored and set up when it starts to read. *)
Lemma post_stream_opens db uid r clk id c :
  valid_request r = true ->
  castObjectId (req_chatId r) = Some id ->
  findOne db id uid = Some c ->
  valid_chat c = true ->
  trim (req_message r) <> [] ->
  let c1 := set_lastActivity
              (push c (user_message (trim (req_message r)) (clk 202%nat)))
              (clk 207%nat) in
  post_stream db uid r clk OpenResolved
  = Reading {| ss_db := <[id := c1]> db; ss_id := id; ss_chat := c1;
               selectedModel := selected_model r c; fullResponse := [];
               ss_res := writeHead_sse |}.
Proof.
  intros Hvalid Hid Hfind Hc Hmsg c1.
  unfold post_stream. rewrite Hvalid, Hid, Hfind. cbn [negb].
  rewrite save_valid; [done|].
  rewrite valid_chat_push, Hc. unfold valid_message. cbn.
  rewrite andb_true_r. by apply required_string_nonempty.
Qed.


Section PathsCompared.

Variable Number_toString : jnumber -> jsstring.



End PathsCompared.



(* ===================================================================== *)
(** ** NotFound on the streaming endpoint *)
(* ===================================================================== *)

(** C10.  On the streaming endpoint, a request that passes validation for a
    conversation that does not exist, belongs to another user or is
    soft-deleted finds the response already committed with status 200 and
    the event-stream headers: the handler writes the single error event
    "Chat not found", ends the response, and leaves the collection
    untouched. *)
Theorem C10_stream_not_found_in_stream db uid r clk opening id :
  valid_request r = true ->
  castObjectId (req_chatId r) = Some id ->
  (db !! id = None \/
   exists c, db !! id = Some c /\ (user c <> uid \/ isActive c = false)) ->
  post_stream db uid r clk opening
  = Closed db
      {| sse_status := 200;
         sse_headers := sse_headers writeHead_sse;
         sse_events := [SseError (jstr "Chat not found")];
         sse_ended := true;
         sse_client_gone := false |} /\
  In (jstr "Content-Type", jstr "text/event-stream") (sse_headers writeHead_sse).
Proof.
  intros Hvalid Hid Hmiss. apply findOne_None in Hmiss. split.
  - by rewrite (post_stream_not_found db uid r clk opening id).
  - by left.
Qed.

Lemma C10_stream_not_found_in_stream_witness :
  valid_request sample_request = true /\
  castObjectId (req_chatId sample_request) = Some sample_id /\
  (sample_db !! sample_id = None \/
   exists c, sample_db !! sample_id = Some c /\
             (user c <> 8 \/ isActive c = false)) /\
  post_stream sample_db 8 sample_request sample_clock OpenResolved
  = Closed sample_db
      {| sse_status := 200;
         sse_headers := sse_headers writeHead_sse;
         sse_events := [SseError (jstr "Chat not found")];
         sse_ended := true;
         sse_client_gone := false |} /\
  In (jstr "Content-Type", jstr "text/event-stream") (sse_headers writeHead_sse).
Proof.
  assert (H1 : valid_request sample_request = true) by (vm_compute; reflexivity).
  assert (H2 : castObjectId (req_chatId sample_request) = Some sample_id)
    by (vm_compute; reflexivity).
  assert (H3 : sample_db !! sample_id = None \/
               exists c, sample_db !! sample_id = Some c /\
                         (user c <> 8 \/ isActive c = false)).
  { right. exists sample_chat. split; [vm_compute; reflexivity|].
    left. vm_compute. discriminate. }
  split; [exact H1|]. split; [exact H2|]. split; [exact H3|].
  exact (C10_stream_not_found_in_stream sample_db 8 sample_request
           sample_clock OpenResolved sample_id H1 H2 H3).
Defined.

(* ===================================================================== *)
(** ** The token invariant at the user-message append *)
(* ===================================================================== *)

Lemma ceil_quarter_length_pos s : s <> [] -> 0 < ceil_quarter_length s.
Proof.
  intros Hs. unfold ceil_quarter_length, str_length.
  destruct s as [|c s]; [done|]. cbn [length].
  apply N.div_str_pos. lia.
Qed.

(** Wherever the invariant holds before [POST /stream] (or [POST /chat])
    appends the user message, it is broken in the stored document after:
    [totalTokens] is what it was, and the log has gained a message of at
    least one token. *)
Lemma user_append_breaks_invariant db uid r clk id c s :
  valid_request r = true ->
  castObjectId (req_chatId r) = Some id ->
  findOne db id uid = Some c ->
  valid_chat c = true ->
  trim (req_message r) <> [] ->
  totalTokens c = sum_tokens (messages c) ->
  post_stream db uid r clk OpenResolved = Reading s ->
  exists c1, ss_db s !! id = Some c1 /\
    totalTokens c1 = totalTokens c /\
    totalTokens c1 < sum_tokens (messages c1).
Proof.
  intros Hvalid Hid Hfind Hc Hmsg Hinv Hs.
  rewrite (post_stream_opens db uid r clk id c Hvalid Hid Hfind Hc Hmsg) in Hs.
  injection Hs as <-. cbn [ss_db]. rewrite lookup_insert_eq.
  eexists. split; [done|]. split; [done|].
  change (totalTokens c
          < sum_tokens (messages c
                        ++ [user_message (trim (req_message r)) (clk 202%nat)])).
  rewrite sum_tokens_app, <- Hinv.
  change (tokens (user_message (trim (req_message r)) (clk 202%nat)))
    with (ceil_quarter_length (trim (req_message r))).
  pose proof (ceil_quarter_length_pos _ Hmsg). lia.
Qed.

(* ===================================================================== *)
(** ** Examples *)
(* ===================================================================== *)

Example parse_frame_payload :
  JSON_parse payload_hel
  = Some (JObj [(jstr "choices",
                 JArr [JObj [(jstr "delta",
                              JObj [(jstr "content", JStr (jstr "Hel"))])]])]).
Proof. vm_compute. reflexivity. Qed.

Example parse_rejects :
  JSON_parse done_sentinel = None /\
  JSON_parse payload_bad = None /\
  JSON_parse (jtext "{'a': 1,}") = None /\
  JSON_parse (jtext "01") = None /\
  JSON_parse (jtext "nulll") = None.
Proof. vm_compute. repeat split; reflexivity. Qed.

Example parse_number_literal :
  JSON_parse (jtext " -2.50e3 ")
  = Some (JNum {| num_neg := true; num_mant := 250; num_exp10 := 1 |}).
Proof. vm_compute. reflexivity. Qed.

Example split_newline_frames :
  split_newline (jtext "data: a||data: b|")
  = [jstr "data: a"; []; jstr "data: b"; []].
Proof. vm_compute. reflexivity. Qed.

Example delta_of_null_payload :
  payload_delta sample_Number_toString (jstr "null") = None.
Proof. vm_compute. reflexivity. Qed.

Example trim_both_ends : trim (jstr "  hi there ") = jstr "hi there".
Proof. vm_compute. reflexivity. Qed.

(* ===================================================================== *)
(** ** What the store operations keep *)
(* ===================================================================== *)

Lemma extends_log_refl ms : extends_log ms ms.
Proof. exists []. by rewrite app_nil_r. Qed.

Lemma extends_log_trans a b c :
  extends_log a b -> extends_log b c -> extends_log a c.
Proof. intros [x ->] [y ->]. exists (x ++ y). by rewrite app_assoc. Qed.

Lemma appends_only_refl id db : appends_only id db db.
Proof.
  split; [done|]. intros c Hc. exists c.
  split; [done|]. split; [done|]. split; [done|]. apply extends_log_refl.
Qed.

Lemma appends_only_insert id db c c' :
  db !! id = Some c ->
  user c' = user c -> isActive c' = isActive c ->
  extends_log (messages c) (messages c') ->
  appends_only id db (<[id := c']> db).
Proof.
  intros Hc Hu Ha Hm. split.
  - intros id' Hne. by rewrite lookup_insert_ne.
  - intros c0 Hc0. rewrite Hc in Hc0. injection Hc0 as <-.
    exists c'. by rewrite lookup_insert_eq.
Qed.

(** X1.  Whatever the request, the add-message operation is append-only: it
    leaves every other conversation as it was, and in the addressed one it
    changes neither the owner nor the liveness flag nor any stored message;
    the old log is the head of the new one. *)
Theorem post_messages_appends_only db uid chatId b clk id :
  castObjectId chatId = Some id ->
  appends_only id db (post_messages db uid chatId b clk).1.1.
Proof.
  intros Hid. unfold post_messages.
  destruct (min_length_1 _); [|apply appends_only_refl].
  destruct (parse_role _) as [ro|]; [|apply appends_only_refl].
  rewrite Hid.
  destruct (findOne db id uid) as [c0|] eqn:Hfind; [|apply appends_only_refl].
  destruct (save _ _ _ _) as [[d c3]|] eqn:Hsave; [|apply appends_only_refl].
  apply save_Some in Hsave as (_ & -> & ->). cbn [fst].
  apply findOne_Some in Hfind as (Hc0 & _ & _).
  eapply appends_only_insert; [done| | |].
  - by destruct (str_eqb _ _ && _ && _).
  - by destruct (str_eqb _ _ && _ && _).
  - eexists. by destruct (str_eqb _ _ && _ && _).
Qed.

Lemma post_messages_appends_only_witness :
  castObjectId sample_chatId = Some sample_id /\
  appends_only sample_id greeted_db
    (post_messages greeted_db sample_user sample_chatId sample_body
       sample_clock).1.1.
Proof.
  assert (H : castObjectId sample_chatId = Some sample_id)
    by (vm_compute; reflexivity).
  split; [exact H|].
  exact (post_messages_appends_only greeted_db sample_user sample_chatId
           sample_body sample_clock sample_id H).
Defined.

Lemma on_api_error_appends_only db0 id chatId c c0 c1 sel emitted d clk :
  db0 !! id = Some c0 ->
  user c = user c0 -> isActive c = isActive c0 ->
  extends_log (messages c0) (messages c) ->
  user c1 = user c0 -> isActive c1 = isActive c0 ->
  extends_log (messages c0) (messages c1) ->
  appends_only id db0
    (on_api_error (<[id := c1]> db0) id chatId c sel emitted d clk).1.1.
Proof.
  intros Hc0 Hu Ha Hm Hu1 Ha1 Hm1. unfold on_api_error.
  destruct (save _ _ _ _) as [[d' c']|] eqn:Hsave; cbn [fst].
  - apply save_Some in Hsave as (_ & -> & ->). rewrite insert_insert_eq.
    eapply appends_only_insert; [done|done|done|].
    eapply extends_log_trans; [exact Hm|]. by eexists.
  - by eapply appends_only_insert.
Qed.

(** X2.  Whatever the request and whatever the provider does, [POST /chat]
    is append-only in the same sense. *)
Theorem post_chat_appends_only db uid r clk up id :
  castObjectId (req_chatId r) = Some id ->
  appends_only id db (post_chat db uid r clk up).1.1.
Proof.
  intros Hid. unfold post_chat.
  destruct (negb _); [apply appends_only_refl|]. rewrite Hid.
  destruct (findOne db id uid) as [c0|] eqn:Hfind; [|apply appends_only_refl].
  apply findOne_Some in Hfind as (Hc0 & _ & _).
  destruct (save db _ _ _) as [[db1 c1]|] eqn:Hsave1; [|apply appends_only_refl].
  apply save_Some in Hsave1 as (_ & -> & ->).
  set (c1 := set_lastActivity _ _).
  assert (Hc1 : extends_log (messages c0) (messages c1)) by by eexists.
  destruct up as [d| |text usage].
  - by eapply on_api_error_appends_only.
  - by eapply on_api_error_appends_only.
  - destruct (save (<[id:=c1]> db) _ _ _) as [[db2 c2]|] eqn:Hsave2.
    + apply save_Some in Hsave2 as (_ & -> & ->). cbn [fst].
      rewrite insert_insert_eq.
      eapply appends_only_insert; [done|done|done|].
      eapply extends_log_trans; [exact Hc1|]. by eexists.
    + eapply on_api_error_appends_only; try done.
      eapply extends_log_trans; [exact Hc1|]. by eexists.
Qed.

Lemma post_chat_appends_only_witness :
  castObjectId (req_chatId sample_request) = Some sample_id /\
  appends_only sample_id greeted_db
    (post_chat greeted_db sample_user sample_request sample_clock
       (Envelope (Some (jstr "Hello")) None)).1.1.
Proof.
  assert (H : castObjectId (req_chatId sample_request) = Some sample_id)
    by (vm_compute; reflexivity).
  split; [exact H|].
  exact (post_chat_appends_only greeted_db sample_user sample_request
           sample_clock _ sample_id H).
Defined.

(** X3.  The add-message operation is all or nothing: unless it answers
    201, the collection is what it was and nothing is broadcast. *)
Theorem post_messages_all_or_nothing db uid chatId b clk db' emitted res :
  post_messages db uid chatId b clk = (db', emitted, res) ->
  status res <> 201 ->
  db' = db /\ emitted = [].
Proof.
  unfold post_messages.
  destruct (min_length_1 _); [|by intros [= <- <- <-]].
  destruct (parse_role _) as [ro|]; [|by intros [= <- <- <-]].
  destruct (castObjectId chatId) as [id|]; [|by intros [= <- <- <-]].
  destruct (findOne db id uid) as [c0|]; [|by intros [= <- <- <-]].
  destruct (save _ _ _ _) as [[d c3]|]; by intros [= <- <- <-].
Qed.

Lemma post_messages_all_or_nothing_witness :
  post_messages sample_db 8 sample_chatId sample_body sample_clock
  = (sample_db, [], chat_not_found) /\
  status chat_not_found <> 201 /\
  sample_db = sample_db /\ @nil emit = [].
Proof.
  assert (H1 : post_messages sample_db 8 sample_chatId sample_body sample_clock
               = (sample_db, [], chat_not_found)) by (vm_compute; reflexivity).
  assert (H2 : status chat_not_found <> 201) by (vm_compute; discriminate).
  split; [exact H1|]. split; [exact H2|].
  exact (post_messages_all_or_nothing sample_db 8 sample_chatId sample_body
           sample_clock sample_db [] chat_not_found H1 H2).
Defined.



(* ===================================================================== *)
(** ** Renaming, reading and deleting *)
(* ===================================================================== *)

Lemma trim_idem s : trim (trim s) = trim s.
Proof. apply trim_trimmed, trimmed_trim. Qed.

Lemma trim_length s : (length (trim s) <= length s)%nat.
Proof.
  unfold trim. rewrite length_rev.
  etransitivity; [apply trim_start_length|]. rewrite length_rev.
  apply trim_start_length.
Qed.

Section UpdateTitleFacts.

Variable title_length_ok : jsstring -> bool.

Lemma put_chat_found db uid chatId raw id c :
  title_length_ok raw = true ->
  castObjectId chatId = Some id ->
  findOne db id uid = Some c ->
  put_chat title_length_ok db uid chatId raw
  = (<[id := set_title c (trim raw)]> db,
     PutOk id (summary_of (set_title c (trim raw)))).
Proof. intros Hok Hid Hfind. unfold put_chat. by rewrite Hok, Hid, Hfind. Qed.

(** X5.  Renaming a live conversation of one's own stores the trimmed
    title and touches nothing else of the document: not the log, not the
    token total, not the last-activity time.  Sending the same title again
    changes nothing more. *)
Theorem put_chat_renames db uid chatId raw id c :
  title_length_ok raw = true ->
  castObjectId chatId = Some id ->
  findOne db id uid = Some c ->
  exists c',
    put_chat title_length_ok db uid chatId raw
    = (<[id := c']> db, PutOk id (summary_of c')) /\
    title c' = trim raw /\
    messages c' = messages c /\ totalTokens c' = totalTokens c /\
    lastActivity c' = lastActivity c /\ user c' = user c /\
    isActive c' = isActive c /\ chat_model c' = chat_model c /\
    put_chat title_length_ok (<[id := c']> db) uid chatId raw
    = (<[id := c']> db, PutOk id (summary_of c')).
Proof.
  intros Hok Hid Hfind. exists (set_title c (trim raw)).
  split; [by apply put_chat_found|]. cbn [title set_title]. rewrite trim_idem.
  repeat (split; [done|]).
  apply findOne_Some in Hfind as (_ & Hu & Ha).
  unfold put_chat. rewrite Hok, Hid. unfold findOne.
  rewrite lookup_insert_eq. cbn [user isActive set_title].
  rewrite Hu, Ha, N.eqb_refl. cbn [andb].
  rewrite insert_insert_eq. unfold set_title. cbn. by rewrite !trim_idem.
Qed.

(** X6.  A title of blanks only, which the length validator admits, is
    stored as the empty title; from then on every append to that
    conversation is answered 500 and stores nothing, because each save
    runs the schema's [required] validator on the title. *)
Theorem put_chat_blank_title_blocks_appends db uid chatId raw id c :
  title_length_ok raw = true ->
  trim raw = [] ->
  castObjectId chatId = Some id ->
  findOne db id uid = Some c ->
  let db1 := (put_chat title_length_ok db uid chatId raw).1 in
  (exists c1, db1 !! id = Some c1 /\ title c1 = [] /\
              messages c1 = messages c) /\
  (forall b clk,
     min_length_1 (body_content b) = true ->
     parse_role (body_role b) <> None ->
     post_messages db1 uid chatId b clk = (db1, [], server_error)) /\
  (forall r clk up,
     req_chatId r = chatId -> valid_request r = true ->
     post_chat db1 uid r clk up = (db1, [], server_error)).
Proof.
  intros Hok Hblank Hid Hfind db1.
  pose proof (put_chat_found db uid chatId raw id c Hok Hid Hfind) as Hput.
  set (c' := set_title c (trim raw)) in Hput.
  assert (Ht : title c' = trim raw) by apply trim_idem.
  assert (Hm : messages c' = messages c) by reflexivity.
  assert (Hu : user c' = user c) by reflexivity.
  assert (Ha : isActive c' = isActive c) by reflexivity.
  assert (Hdb1 : db1 = <[id := c']> db) by (unfold db1; by rewrite Hput).
  clearbody c'.
  apply findOne_Some in Hfind as (_ & Hu0 & Ha0).
  assert (Hfind1 : findOne db1 id uid = Some c').
  { unfold findOne. rewrite Hdb1, lookup_insert_eq.
    by rewrite Hu, Ha, Hu0, Ha0, N.eqb_refl. }
  assert (Hinvalid : forall c2 now, title c2 = [] -> save db1 id c2 now = None).
  { intros c2 now Hc2. unfold save, valid_chat. by rewrite Hc2. }
  rewrite Hblank in Ht.
  split; [exists c'; by rewrite Hdb1, lookup_insert_eq|]. split.
  - intros b clk Hlen Hrole. unfold post_messages.
    rewrite Hlen. destruct (parse_role _) as [ro|]; [|done].
    rewrite Hid, Hfind1.
    assert (Hno : str_eqb (title c') default_title = false).
    { apply str_eqb_false. rewrite Ht. by vm_compute. }
    change (title (calculateTotalTokens (push c' ?m))) with (title c').
    cbn [title calculateTotalTokens set_totalTokens push set_messages].
    rewrite Hno. cbn [andb]. by rewrite Hinvalid.
  - intros r clk up <- Hvalid. unfold post_chat.
    rewrite Hvalid, Hid, Hfind1. cbn [negb]. by rewrite Hinvalid.
Qed.

(** X7.  A soft-deleted conversation is out of reach of reading and of
    renaming too: both answer NotFound, and renaming writes nothing. *)
Theorem deleted_chat_unreachable db uid chatId raw id c :
  castObjectId chatId = Some id ->
  findOne db id uid = Some c ->
  let db1 := (delete_chat db uid chatId).1 in
  get_chat db1 uid chatId = chat_not_found /\
  (put_chat title_length_ok db1 uid chatId raw = (db1, PutNotFound) \/
   put_chat title_length_ok db1 uid chatId raw = (db1, PutErrors)).
Proof.
  intros Hid Hfind db1.
  assert (Hdb1 : db1 = <[id := set_isActive c false]> db).
  { unfold db1, delete_chat, findOneAndDeactivate. by rewrite Hid, Hfind. }
  assert (Hgone : findOne db1 id uid = None).
  { apply findOne_None. right. exists (set_isActive c false).
    rewrite Hdb1, lookup_insert_eq. split; [done|]. by right. }
  split.
  - unfold get_chat. by rewrite Hid, Hgone.
  - unfold put_chat. destruct (title_length_ok raw); [left|by right].
    by rewrite Hid, Hgone.
Qed.

(** X8.  Conversations are closed to other users: on a conversation whose
    owner is someone else, reading, renaming, deleting and appending all
    answer NotFound (or refuse the input) and leave the collection as it
    was. *)
Theorem foreign_chat_untouched db uid chatId id c :
  castObjectId chatId = Some id ->
  db !! id = Some c ->
  user c <> uid ->
  get_chat db uid chatId = chat_not_found /\
  delete_chat db uid chatId = (db, chat_not_found) /\
  (forall raw, (put_chat title_length_ok db uid chatId raw).1 = db) /\
  (forall b clk, (post_messages db uid chatId b clk).1 = (db, [])) /\
  (forall r clk up,
     req_chatId r = chatId -> (post_chat db uid r clk up).1 = (db, [])) /\
  (forall r clk opening,
     req_chatId r = chatId ->
     (exists res, post_stream db uid r clk opening = Closed db res) \/
     (exists res, post_stream db uid r clk opening = Refused db res)).
Proof.
  intros Hid Hc Hu.
  assert (Hnone : findOne db id uid = None).
  { apply findOne_None. right. exists c. split; [done|]. by left. }
  split; [unfold get_chat; by rewrite Hid, Hnone|].
  split; [unfold delete_chat, findOneAndDeactivate; by rewrite Hid, Hnone|].
  split.
  { intros raw. unfold put_chat. destruct (title_length_ok raw); [|done].
    by rewrite Hid, Hnone. }
  split.
  { intros b clk. unfold post_messages.
    destruct (min_length_1 _); [|done]. destruct (parse_role _); [|done].
    by rewrite Hid, Hnone. }
  split.
  { intros r clk up <-. unfold post_chat. destruct (negb _); [done|].
    by rewrite Hid, Hnone. }
  intros r clk opening <-. unfold post_stream.
  destruct (negb _); [right; by eexists|]. rewrite Hid, Hnone.
  left. by eexists.
Qed.

End UpdateTitleFacts.

Lemma put_chat_renames_witness :
  sample_title_length_ok (jstr "  Sorting notes ") = true /\
  castObjectId sample_chatId = Some sample_id /\
  findOne greeted_db sample_id sample_user = Some greeted_chat /\
  exists c',
    put_chat sample_title_length_ok greeted_db sample_user sample_chatId
      (jstr "  Sorting notes ")
    = (<[sample_id := c']> greeted_db, PutOk sample_id (summary_of c')) /\
    title c' = trim (jstr "  Sorting notes ") /\
    messages c' = messages greeted_chat /\
    totalTokens c' = totalTokens greeted_chat /\
    lastActivity c' = lastActivity greeted_chat /\
    user c' = user greeted_chat /\
    isActive c' = isActive greeted_chat /\
    chat_model c' = chat_model greeted_chat /\
    put_chat sample_title_length_ok (<[sample_id := c']> greeted_db)
      sample_user sample_chatId (jstr "  Sorting notes ")
    = (<[sample_id := c']> greeted_db, PutOk sample_id (summary_of c')).
Proof.
  assert (H1 : sample_title_length_ok (jstr "  Sorting notes ") = true)
    by (vm_compute; reflexivity).
  assert (H2 : castObjectId sample_chatId = Some sample_id)
    by (vm_compute; reflexivity).
  assert (H3 : findOne greeted_db sample_id sample_user = Some greeted_chat)
    by (vm_compute; reflexivity).
  split; [exact H1|]. split; [exact H2|]. split; [exact H3|].
  exact (put_chat_renames sample_title_length_ok greeted_db sample_user
           sample_chatId _ sample_id greeted_chat H1 H2 H3).
Defined.

Lemma put_chat_blank_title_blocks_appends_witness :
  sample_title_length_ok (jstr "   ") = true /\
  trim (jstr "   ") = [] /\
  castObjectId sample_chatId = Some sample_id /\
  findOne greeted_db sample_id sample_user = Some greeted_chat /\
  let db1 := (put_chat sample_title_length_ok greeted_db sample_user
                sample_chatId (jstr "   ")).1 in
  (exists c1, db1 !! sample_id = Some c1 /\ title c1 = [] /\
              messages c1 = messages greeted_chat) /\
  (forall b clk,
     min_length_1 (body_content b) = true ->
     parse_role (body_role b) <> None ->
     post_messages db1 sample_user sample_chatId b clk
     = (db1, [], server_error)) /\
  (forall r clk up,
     req_chatId r = sample_chatId -> valid_request r = true ->
     post_chat db1 sample_user r clk up = (db1, [], server_error)).
Proof.
  assert (H1 : sample_title_length_ok (jstr "   ") = true)
    by (vm_compute; reflexivity).
  assert (H2 : trim (jstr "   ") = []) by (vm_compute; reflexivity).
  assert (H3 : castObjectId sample_chatId = Some sample_id)
    by (vm_compute; reflexivity).
  assert (H4 : findOne greeted_db sample_id sample_user = Some greeted_chat)
    by (vm_compute; reflexivity).
  split; [exact H1|]. split; [exact H2|]. split; [exact H3|].
  split; [exact H4|].
  exact (put_chat_blank_title_blocks_appends sample_title_length_ok greeted_db
           sample_user sample_chatId _ sample_id greeted_chat H1 H2 H3 H4).
Defined.

Lemma deleted_chat_unreachable_witness :
  castObjectId sample_chatId = Some sample_id /\
  findOne greeted_db sample_id sample_user = Some greeted_chat /\
  let db1 := (delete_chat greeted_db sample_user sample_chatId).1 in
  get_chat db1 sample_user sample_chatId = chat_not_found /\
  (put_chat sample_title_length_ok db1 sample_user sample_chatId (jstr "Notes")
   = (db1, PutNotFound) \/
   put_chat sample_title_length_ok db1 sample_user sample_chatId (jstr "Notes")
   = (db1, PutErrors)).
Proof.
  assert (H1 : castObjectId sample_chatId = Some sample_id)
    by (vm_compute; reflexivity).
  assert (H2 : findOne greeted_db sample_id sample_user = Some greeted_chat)
    by (vm_compute; reflexivity).
  split; [exact H1|]. split; [exact H2|].
  exact (deleted_chat_unreachable sample_title_length_ok greeted_db sample_user
           sample_chatId (jstr "Notes") sample_id greeted_chat H1 H2).
Defined.

Lemma foreign_chat_untouched_witness :
  castObjectId sample_chatId = Some sample_id /\
  greeted_db !! sample_id = Some greeted_chat /\
  user greeted_chat <> 8 /\
  get_chat greeted_db 8 sample_chatId = chat_not_found /\
  delete_chat greeted_db 8 sample_chatId = (greeted_db, chat_not_found) /\
  (forall raw,
     (put_chat sample_title_length_ok greeted_db 8 sample_chatId raw).1
     = greeted_db) /\
  (forall b clk,
     (post_messages greeted_db 8 sample_chatId b clk).1 = (greeted_db, [])) /\
  (forall r clk up,
     req_chatId r = sample_chatId ->
     (post_chat greeted_db 8 r clk up).1 = (greeted_db, [])) /\
  (forall r clk opening,
     req_chatId r = sample_chatId ->
     (exists res, post_stream greeted_db 8 r clk opening = Closed greeted_db res) \/
     (exists res, post_stream greeted_db 8 r clk opening = Refused greeted_db res)).
Proof.
  assert (H1 : castObjectId sample_chatId = Some sample_id)
    by (vm_compute; reflexivity).
  assert (H2 : greeted_db !! sample_id = Some greeted_chat)
    by (vm_compute; reflexivity).
  assert (H3 : user greeted_chat <> 8) by (vm_compute; discriminate).
  split; [exact H1|]. split; [exact H2|]. split; [exact H3|].
  exact (foreign_chat_untouched sample_title_length_ok greeted_db 8
           sample_chatId sample_id greeted_chat H1 H2 H3).
Defined.

(* ===================================================================== *)
(** ** Stored documents stay valid *)
(* ===================================================================== *)

Lemma all_valid_insert db id c :
  all_valid db -> valid_chat c = true -> all_valid (<[id := c]> db).
Proof.
  intros Hdb Hc id' c'. destruct (decide (id = id')) as [<-|Hne].
  - rewrite lookup_insert_eq. by intros [= <-].
  - rewrite lookup_insert_ne by done. apply Hdb.
Qed.

Lemma all_valid_save db id c now db' c' :
  all_valid db -> save db id c now = Some (db', c') -> all_valid db'.
Proof.
  intros Hdb Hsave. apply save_Some in Hsave as (Hv & -> & ->).
  by apply all_valid_insert.
Qed.

Lemma all_valid_on_api_error db id chatId c sel emitted d clk :
  all_valid db ->
  all_valid (on_api_error db id chatId c sel emitted d clk).1.1.
Proof.
  intros Hdb. unfold on_api_error.
  destruct (save _ _ _ _) as [[d' c']|] eqn:Hsave; cbn [fst]; [|done].
  by eapply all_valid_save.
Qed.

(** X9.  Appending and deleting keep the collection valid: if every stored
    document passes the schema's validators before an add-message, a
    [POST /chat] or a delete, every stored document passes them after. *)
Theorem appends_keep_documents_valid db uid chatId b r clk up :
  all_valid db ->
  all_valid (post_messages db uid chatId b clk).1.1 /\
  all_valid (post_chat db uid r clk up).1.1 /\
  all_valid (delete_chat db uid chatId).1.
Proof.
  intros Hdb. split; [|split].
  - unfold post_messages.
    destruct (min_length_1 _); [|done]. destruct (parse_role _); [|done].
    destruct (castObjectId chatId) as [id|]; [|done].
    destruct (findOne db id uid) as [c0|]; [|done].
    destruct (save _ _ _ _) as [[d c3]|] eqn:Hsave; [|done].
    by eapply all_valid_save.
  - unfold post_chat. destruct (negb _); [done|].
    destruct (castObjectId _) as [id|]; [|done].
    destruct (findOne db id uid) as [c0|]; [|done].
    destruct (save db _ _ _) as [[db1 c1]|] eqn:Hsave1; [|done].
    assert (Hdb1 : all_valid db1) by by eapply all_valid_save.
    destruct up as [d| |text usage]; try by apply all_valid_on_api_error.
    destruct (save db1 _ _ _) as [[db2 c2]|] eqn:Hsave2.
    + by eapply all_valid_save.
    + by apply all_valid_on_api_error.
  - unfold delete_chat, findOneAndDeactivate.
    destruct (castObjectId chatId) as [id|]; [|done].
    destruct (findOne db id uid) as [c0|] eqn:Hfind; [|done]. cbn [fst].
    apply all_valid_insert; [done|].
    apply findOne_Some in Hfind as (Hc0 & _ & _).
    change (valid_chat (set_isActive c0 false)) with (valid_chat c0).
    by eapply Hdb.
Qed.

Lemma sample_db_all_valid : all_valid sample_db.
Proof.
  intros id c. unfold sample_db.
  destruct (decide (id = sample_id)) as [->|Hne].
  - rewrite lookup_singleton_eq. intros [= <-]. by vm_compute.
  - by rewrite lookup_singleton_ne.
Qed.

Lemma appends_keep_documents_valid_witness :
  all_valid sample_db /\
  all_valid (post_messages sample_db sample_user sample_chatId sample_body
               sample_clock).1.1 /\
  all_valid (post_chat sample_db sample_user sample_request sample_clock
               Unreadable).1.1 /\
  all_valid (delete_chat sample_db sample_user sample_chatId).1.
Proof.
  split; [exact sample_db_all_valid|].
  exact (appends_keep_documents_valid sample_db sample_user sample_chatId
           sample_body sample_request sample_clock Unreadable
           sample_db_all_valid).
Defined.

(** X10.  A generated title never exceeds 53 characters, so it always fits
    the schema's limit of 100; it is the placeholder exactly when the log
    holds no user message, and otherwise comes from the first user message
    wherever that stands in the log. *)
Theorem generateTitle_bounded c :
  (length (generateTitle c) <= 53)%nat /\
  (find (fun msg => role_eqb (role msg) RoleUser) (messages c) = None ->
   generateTitle c = default_title) /\
  (forall m,
     find (fun msg => role_eqb (role msg) RoleUser) (messages c) = Some m ->
     generateTitle c
     = substring0 50 (content m)
       ++ (if 50 <? str_length (content m) then jstr "..." else [])).
Proof.
  unfold generateTitle. destruct (messages c) as [|m0 ms].
  - split; [cbn; lia|]. split; [done|]. by intros m [=].
  - destruct (find _ (m0 :: ms)) as [m|].
    + split; [apply truncated_length|]. split; [done|]. by intros m' [= <-].
    + split; [cbn; lia|]. split; [done|]. by intros m' [=].
Qed.

Lemma generateTitle_bounded_witness :
  (length (generateTitle greeted_chat) <= 53)%nat /\
  (find (fun msg => role_eqb (role msg) RoleUser) (messages greeted_chat) = None ->
   generateTitle greeted_chat = default_title) /\
  (forall m,
     find (fun msg => role_eqb (role msg) RoleUser) (messages greeted_chat)
     = Some m ->
     generateTitle greeted_chat
     = substring0 50 (content m)
       ++ (if 50 <? str_length (content m) then jstr "..." else [])).
Proof. exact (generateTitle_bounded greeted_chat). Defined.

(* ===================================================================== *)
(** ** The context sent to the provider *)
(* ===================================================================== *)

Lemma filter_app_last {A} (f : A -> bool) l x :
  f x = true -> List.filter f (l ++ [x]) = List.filter f l ++ [x].
Proof. intros H. rewrite List.filter_app. cbn. by rewrite H. Qed.

(** X11.  The context sent to the provider holds at most 20 entries, none
    of them from the system role; it is the tail, in the log's order, of
    the log's non-system messages; and when the log ends with a user
    message, as it does when either handler calls the provider, that
    message is the last entry. *)
Theorem apiMessages_window c :
  (length (apiMessages c) <= 20)%nat /\
  Forall (fun e => e.1 <> RoleSystem) (apiMessages c) /\
  (exists older,
     map (fun msg => (role msg, content msg))
       (List.filter (fun msg => negb (role_eqb (role msg) RoleSystem))
          (messages c))
     = older ++ apiMessages c) /\
  (forall c0 text now t,
     c = set_lastActivity (push c0 (user_message text now)) t ->
     last (apiMessages c) = Some (RoleUser, text)).
Proof.
  unfold apiMessages.
  set (kept := List.filter _ (messages c)).
  split; [|split; [|split]].
  - rewrite length_map, length_skipn. lia.
  - apply Forall_map. apply Forall_drop. apply Forall_forall. intros m Hm.
    apply list_elem_of_In, filter_In in Hm as [_ Hm]. cbn.
    destruct (role m); cbn in Hm; done.
  - exists (map (fun msg => (role msg, content msg))
              (firstn (length kept - 20) kept)).
    by rewrite <- map_app, firstn_skipn.
  - intros c0 text now t ->. subst kept.
    change (messages (set_lastActivity (push c0 (user_message text now)) t))
      with (messages c0 ++ [user_message text now]).
    rewrite filter_app_last by done.
    set (kept0 := List.filter _ (messages c0)).
    rewrite length_app. cbn [length].
    rewrite skipn_app.
    replace (length kept0 + 1 - 20 - length kept0)%nat with 0%nat by lia.
    cbn [skipn]. rewrite map_app. cbn [map]. by rewrite last_app.
Qed.

Lemma apiMessages_window_witness :
  (length (apiMessages greeted_chat) <= 20)%nat /\
  Forall (fun e => e.1 <> RoleSystem) (apiMessages greeted_chat) /\
  (exists older,
     map (fun msg => (role msg, content msg))
       (List.filter (fun msg => negb (role_eqb (role msg) RoleSystem))
          (messages greeted_chat))
     = older ++ apiMessages greeted_chat) /\
  (forall c0 text now t,
     greeted_chat = set_lastActivity (push c0 (user_message text now)) t ->
     last (apiMessages greeted_chat) = Some (RoleUser, text)).
Proof. exact (apiMessages_window greeted_chat). Defined.

(* ===================================================================== *)
(** ** Identifiers in hexadecimal *)
(* ===================================================================== *)

Lemma hex_val_hex_digit d : d < 16 -> hex_val (hex_digit d) = Some d.
Proof.
  intros Hd. unfold hex_digit, hex_val, is_digit.
  destruct (d <? 10) eqn:H10.
  - apply N.ltb_lt in H10.
    replace (48 <=? 48 + d) with true by (symmetry; apply N.leb_le; lia).
    replace (48 + d <=? 57) with true by (symmetry; apply N.leb_le; lia).
    cbn. f_equal. lia.
  - apply N.ltb_ge in H10.
    replace (87 + d <=? 57) with false by (symmetry; apply N.leb_gt; lia).
    rewrite andb_false_r.
    replace (97 <=? 87 + d) with true by (symmetry; apply N.leb_le; lia).
    replace (87 + d <=? 102) with true by (symmetry; apply N.leb_le; lia).
    cbn. f_equal. lia.
Qed.

Lemma hex_digits_app a b acc :
  hex_digits (a ++ b) acc
  = match hex_digits a acc with
    | Some x => hex_digits b x
    | None => None
    end.
Proof.
  revert acc. induction a as [|c a IH]; intros acc; [done|].
  cbn [app hex_digits]. by destruct (hex_val c).
Qed.

Lemma hex_fixed_length n v : length (hex_fixed n v) = n.
Proof.
  revert v. induction n as [|n IH]; intros v; [done|].
  cbn [hex_fixed]. rewrite length_app, IH. cbn. lia.
Qed.

Lemma hex_digits_hex_fixed n v acc :
  v < 16 ^ N.of_nat n ->
  hex_digits (hex_fixed n v) acc = Some (acc * 16 ^ N.of_nat n + v).
Proof.
  revert v acc. induction n as [|n IH]; intros v acc Hv.
  - cbn in *. f_equal. lia.
  - cbn [hex_fixed]. rewrite Nat2N.inj_succ, N.pow_succ_r' in *.
    rewrite hex_digits_app, IH.
    2:{ apply N.Div0.div_lt_upper_bound. lia. }
    cbn [hex_digits]. rewrite hex_val_hex_digit by (apply N.mod_lt; lia).
    f_equal. pose proof (N.div_mod v 16 ltac:(lia)). lia.
Qed.

(** X12.  An identifier written out as its 24 hexadecimal digits (the way
    it reaches the client in a reply or an event) passes [isMongoId] and
    casts back to the same identifier. *)
Theorem castObjectId_hex24 id :
  id < 16 ^ 24 ->
  castObjectId (hex24 id) = Some id /\ isMongoId (hex24 id) = true.
Proof.
  intros Hid.
  assert (H : castObjectId (hex24 id) = Some id).
  { unfold castObjectId, hex24. rewrite hex_fixed_length. cbn [Nat.eqb].
    by rewrite (hex_digits_hex_fixed 24 id 0) by exact Hid. }
  split; [exact H|]. unfold isMongoId. by rewrite H.
Qed.

Lemma castObjectId_hex24_witness :
  sample_id < 16 ^ 24 /\
  castObjectId (hex24 sample_id) = Some sample_id /\
  isMongoId (hex24 sample_id) = true.
Proof.
  assert (H : sample_id < 16 ^ 24) by (vm_compute; reflexivity).
  split; [exact H|]. exact (castObjectId_hex24 sample_id H).
Defined.

Example hex24_sample : hex24 sample_id = sample_chatId.
Proof. vm_compute. reflexivity. Qed.

(* ===================================================================== *)
(** ** More on the streaming handler *)
(* ===================================================================== *)

(** X13.  When the upstream request cannot be opened, the streaming
    handler has already stored the user message; it stores no assistant
    message and no placeholder, writes the single event "AI service error"
    and ends the response. *)
Theorem stream_open_rejected db uid r clk id c :
  valid_request r = true ->
  castObjectId (req_chatId r) = Some id ->
  findOne db id uid = Some c ->
  valid_chat c = true ->
  trim (req_message r) <> [] ->
  exists c1,
    post_stream db uid r clk OpenRejected
    = Closed (<[id := c1]> db)
        {| sse_status := 200; sse_headers := sse_headers writeHead_sse;
           sse_events := [SseError (jstr "AI service error")];
           sse_ended := true; sse_client_gone := false |} /\
    messages c1
    = messages c ++ [user_message (trim (req_message r)) (clk 202%nat)].
Proof.
  intros Hvalid Hid Hfind Hc Hmsg.
  eexists. split.
  - unfold post_stream. rewrite Hvalid, Hid, Hfind. cbn [negb].
    rewrite save_valid; [done|].
    rewrite valid_chat_push, Hc. unfold valid_message. cbn.
    rewrite andb_true_r. by apply required_string_nonempty.
  - done.
Qed.

Lemma stream_open_rejected_witness :
  valid_request sample_request = true /\
  castObjectId (req_chatId sample_request) = Some sample_id /\
  findOne sample_db sample_id sample_user = Some sample_chat /\
  valid_chat sample_chat = true /\
  trim (req_message sample_request) <> [] /\
  exists c1,
    post_stream sample_db sample_user sample_request sample_clock OpenRejected
    = Closed (<[sample_id := c1]> sample_db)
        {| sse_status := 200; sse_headers := sse_headers writeHead_sse;
           sse_events := [SseError (jstr "AI service error")];
           sse_ended := true; sse_client_gone := false |} /\
    messages c1
    = messages sample_chat
      ++ [user_message (trim (req_message sample_request))
            (sample_clock 202%nat)].
Proof.
  assert (H1 : valid_request sample_request = true) by (vm_compute; reflexivity).
  assert (H2 : castObjectId (req_chatId sample_request) = Some sample_id)
    by (vm_compute; reflexivity).
  assert (H3 : findOne sample_db sample_id sample_user = Some sample_chat)
    by (vm_compute; reflexivity).
  assert (H4 : valid_chat sample_chat = true) by (vm_compute; reflexivity).
  assert (H5 : trim (req_message sample_request) <> [])
    by (vm_compute; discriminate).
  split; [exact H1|]. split; [exact H2|]. split; [exact H3|].
  split; [exact H4|]. split; [exact H5|].
  exact (stream_open_rejected sample_db sample_user sample_request
           sample_clock sample_id sample_chat H1 H2 H3 H4 H5).
Defined.

Section MoreStream.

Variable Number_toString : jnumber -> jsstring.

Local Abbreviation on_data' := (on_data Number_toString).
Local Abbreviation on_lines' := (on_lines Number_toString).
Local Abbreviation feed' := (feed Number_toString).
Local Abbreviation deltas' := (deltas Number_toString).
Local Abbreviation run' := (run Number_toString).
Local Abbreviation step' := (step Number_toString).

Lemma run_app s es fs : run' s (es ++ fs) = run' (run' s es) fs.
Proof. unfold run. apply fold_left_app. Qed.

(** X14.  Over any sequence of reads, upstream errors and client
    disconnections, the assembled text only grows: what was assembled is
    never dropped or rewritten. *)
Theorem assembled_text_only_grows s es :
  exists post,
    fullResponse (run Number_toString s es) = fullResponse s ++ post.
Proof.
  revert s. induction es as [|e es IH]; intros s.
  - exists []. cbn. by rewrite app_nil_r.
  - change (run' s (e :: es)) with (run' (step' s e) es).
    destruct (IH (step' s e)) as [post Hpost]. rewrite Hpost.
    destruct e as [clk chunk| |]; cbn [step].
    + destruct (on_lines_extends Number_toString s clk (split_newline chunk))
        as [p Hp].
      unfold on_data. rewrite Hp, <- app_assoc. eauto.
    + cbn. eauto.
    + cbn. eauto.
Qed.

(** X15.  How whole frames are grouped into reads does not matter: two
    sequences of reads that carry the same frames (the sentinel not among
    them) leave the session in the same state. *)
Theorem grouping_does_not_matter s groups1 groups2 :
  plain_frames (concat (map snd groups1)) ->
  concat (map snd groups1) = concat (map snd groups2) ->
  run' s (data_events groups1) = run' s (data_events groups2).
Proof.
  intros Hplain Heq.
  rewrite (run_plain Number_toString s groups1 Hplain).
  rewrite (run_plain Number_toString s groups2) by (by rewrite <- Heq).
  by rewrite Heq.
Qed.

(** X16.  In a read, whatever follows the sentinel is not looked at: the
    handler returns from the [[DONE]] branch, so data frames that share the
    read with the sentinel and come after it contribute nothing. *)
Theorem after_done_ignored s clk fs rest :
  plain_frames fs ->
  on_data' s clk (chunk_of fs ++ frame_bytes FDone ++ rest)
  = on_data' s clk (chunk_of fs ++ frame_bytes FDone).
Proof.
  intros Hfs. rewrite on_data_done by done.
  rewrite <- (app_nil_r (frame_bytes FDone)). by rewrite on_data_done.
Qed.

(** X17.  A transport error after any number of whole frames: nothing is
    written to the collection, so the text assembled so far is not saved;
    the last event written is "Streaming error" and the response has
    ended. *)
Theorem upstream_error_saves_nothing s groups :
  plain_frames (concat (map snd groups)) ->
  sse_ended (ss_res s) = false ->
  sse_client_gone (ss_res s) = false ->
  let s' := run' s (data_events groups ++ [UpstreamError]) in
  ss_db s' = ss_db s /\
  fullResponse s' = fullResponse s ++ deltas' (concat (map snd groups)) /\
  last (sse_events (ss_res s')) = Some (SseError (jstr "Streaming error")) /\
  sse_ended (ss_res s') = true.
Proof.
  intros Hplain Hend Hgone s'. subst s'.
  rewrite run_app, (run_plain Number_toString s groups Hplain).
  destruct (feed_keeps Number_toString s (concat (map snd groups)))
    as (Hdb & _ & _ & _ & Hend' & Hgone').
  cbn [run fold_left step]. unfold on_error. cbn [ss_db fullResponse ss_res].
  split; [done|]. split; [apply feed_fullResponse|].
  unfold res_write. rewrite Hend', Hgone', Hend, Hgone. cbn.
  by rewrite last_app.
Qed.

Lemma on_lines_tracks db0 c0 s clk ls :
  tracks db0 c0 s ->
  tracks db0 c0 (on_lines' s clk ls) /\ ss_id (on_lines' s clk ls) = ss_id s.
Proof.
  revert s. induction ls as [|l ls IH]; intros s Hs; [done|].
  cbn [on_lines]. destruct (startsWith l data_prefix); [|by apply IH].
  destruct (str_eqb (slice 6 l) done_sentinel).
  - destruct Hs as (Hother & (stored & Hst & Hsu & Hsa & Hsm) & Hu & Ha & Hm).
    unfold on_done.
    destruct (save _ _ _ _) as [[d c]|] eqn:Hsave.
    + apply save_Some in Hsave as (_ & -> & ->). split; [|done].
      unfold tracks. cbn [ss_db ss_id ss_chat].
      split; [intros id' Hne; rewrite lookup_insert_ne by done; by apply Hother|].
      assert (Hext : extends_log (messages c0)
                (messages (ss_chat s) ++
                 [stream_assistant_message (fullResponse s) (selectedModel s)
                    (clk 251%nat)])).
      { eapply extends_log_trans; [exact Hm|]. by eexists. }
      split; [eexists; rewrite lookup_insert_eq; by repeat split|].
      by repeat split.
    + split; [|done]. unfold tracks. cbn [ss_db ss_id ss_chat].
      split; [done|]. split; [by exists stored|].
      split; [done|]. split; [done|].
      eapply extends_log_trans; [exact Hm|]. by eexists.
  - assert (Hp : tracks db0 c0 (on_payload Number_toString s (slice 6 l)) /\
                 ss_id (on_payload Number_toString s (slice 6 l)) = ss_id s).
    { unfold on_payload. by destruct (payload_delta _ _) as [[c t]|]. }
    destruct Hp as [Hp Hpid]. destruct (IH _ Hp) as [H1 H2].
    split; [done|]. by rewrite H2.
Qed.

Lemma run_tracks db0 c0 s es :
  tracks db0 c0 s ->
  tracks db0 c0 (run' s es) /\ ss_id (run' s es) = ss_id s.
Proof.
  revert s. induction es as [|e es IH]; intros s Hs; [done|].
  change (run' s (e :: es)) with (run' (step' s e) es).
  assert (He : tracks db0 c0 (step' s e) /\ ss_id (step' s e) = ss_id s).
  { destruct e as [clk chunk| |]; cbn [step]; [by apply on_lines_tracks|done|done]. }
  destruct He as [He Heid]. destruct (IH _ He) as [H1 H2].
  split; [done|]. by rewrite H2.
Qed.

(** X18.  A streaming session is append-only on the collection, whatever
    the upstream sends and however long it goes on: other conversations
    are untouched, and the one it reads for keeps its owner, its liveness
    flag and all its stored messages at the head of its log. *)
Theorem stream_appends_only db uid r clk opening s es :
  post_stream db uid r clk opening = Reading s ->
  appends_only (ss_id s) db (ss_db (run' s es)).
Proof.
  unfold post_stream.
  destruct (negb (valid_request r)); [done|].
  destruct (castObjectId (req_chatId r)) as [id|]; [|done].
  destruct (findOne db id uid) as [c0|] eqn:Hfind; [|done].
  destruct (save _ _ _ _) as [[db1 c1]|] eqn:Hsave; [|done].
  destruct opening; [done|]. intros [= <-].
  apply save_Some in Hsave as (_ & -> & ->).
  apply findOne_Some in Hfind as (Hc0 & _ & _).
  set (s := {| ss_db := _ |}).
  assert (Hs : tracks db c0 s).
  { unfold tracks, s. cbn [ss_db ss_id ss_chat].
    split; [intros id' Hne; by rewrite lookup_insert_ne|].
    split; [eexists; rewrite lookup_insert_eq; repeat split; by eexists|].
    repeat split. by eexists. }
  destruct (run_tracks db c0 s es Hs) as [(Hother & Hstored & _) Hid].
  change (ss_id s) with id in *. rewrite Hid in *. split; [done|].
  intros c Hc. rewrite Hc0 in Hc. injection Hc as <-.
  destruct Hstored as (stored & H1 & H2 & H3 & H4). by exists stored.
Qed.

End MoreStream.

Lemma grouping_does_not_matter_witness :
  plain_frames
    (concat (map snd [(sample_clock, [FData payload_hel; FData payload_lo])])) /\
  concat (map snd [(sample_clock, [FData payload_hel; FData payload_lo])])
  = concat (map snd [(sample_clock, [FData payload_hel]);
                     (sample_clock, [FData payload_lo])]) /\
  run sample_Number_toString sample_session
    (data_events [(sample_clock, [FData payload_hel; FData payload_lo])])
  = run sample_Number_toString sample_session
      (data_events [(sample_clock, [FData payload_hel]);
                    (sample_clock, [FData payload_lo])]).
Proof.
  assert (H1 : plain_frames
    (concat (map snd [(sample_clock, [FData payload_hel; FData payload_lo])])))
    by solve_plain.
  split; [exact H1|]. split; [reflexivity|].
  exact (grouping_does_not_matter sample_Number_toString sample_session
           [(sample_clock, [FData payload_hel; FData payload_lo])]
           [(sample_clock, [FData payload_hel]);
            (sample_clock, [FData payload_lo])] H1 eq_refl).
Defined.

Lemma after_done_ignored_witness :
  plain_frames [FData payload_hel] /\
  on_data sample_Number_toString sample_session sample_clock
    (chunk_of [FData payload_hel] ++ frame_bytes FDone
     ++ frame_bytes (FData payload_lo))
  = on_data sample_Number_toString sample_session sample_clock
      (chunk_of [FData payload_hel] ++ frame_bytes FDone).
Proof.
  assert (H1 : plain_frames [FData payload_hel]) by solve_plain.
  split; [exact H1|].
  exact (after_done_ignored sample_Number_toString sample_session sample_clock
           [FData payload_hel] (frame_bytes (FData payload_lo)) H1).
Defined.

Lemma upstream_error_saves_nothing_witness :
  plain_frames (concat (map snd [(sample_clock, [FData payload_hel])])) /\
  sse_ended (ss_res sample_session) = false /\
  sse_client_gone (ss_res sample_session) = false /\
  let s' := run sample_Number_toString sample_session
              (data_events [(sample_clock, [FData payload_hel])]
               ++ [UpstreamError]) in
  ss_db s' = ss_db sample_session /\
  fullResponse s'
  = fullResponse sample_session
    ++ deltas sample_Number_toString
         (concat (map snd [(sample_clock, [FData payload_hel])])) /\
  last (sse_events (ss_res s')) = Some (SseError (jstr "Streaming error")) /\
  sse_ended (ss_res s') = true.
Proof.
  assert (H1 : plain_frames
                 (concat (map snd [(sample_clock, [FData payload_hel])])))
    by solve_plain.
  split; [exact H1|]. split; [reflexivity|]. split; [reflexivity|].
  exact (upstream_error_saves_nothing sample_Number_toString sample_session
           [(sample_clock, [FData payload_hel])] H1 eq_refl eq_refl).
Defined.

Lemma stream_appends_only_witness :
  post_stream sample_db sample_user sample_request sample_clock OpenResolved
  = Reading sample_session /\
  appends_only (ss_id sample_session) sample_db
    (ss_db (run sample_Number_toString sample_session
              [Data sample_clock (chunk_of [FData payload_hel; FDone]);
               Data sample_clock (chunk_of [FDone])])).
Proof.
  assert (H1 : post_stream sample_db sample_user sample_request sample_clock
                 OpenResolved = Reading sample_session)
    by (vm_compute; reflexivity).
  split; [exact H1|].
  exact (stream_appends_only sample_Number_toString sample_db sample_user
           sample_request sample_clock OpenResolved sample_session _ H1).
Defined.

(* ===================================================================== *)
(** ** The text of a partial event, written and read back *)
(* ===================================================================== *)

Lemma hex_fixed_4 c :
  hex_fixed 4 c
  = [hex_digit (c / 16 / 16 / 16 mod 16); hex_digit (c / 16 / 16 mod 16);
     hex_digit (c / 16 mod 16); hex_digit (c mod 16)].
Proof. reflexivity. Qed.

(** Reading back an escape [\uXXXX]. *)
Lemma parse_unicode_escape c rest acc :
  c < 65536 ->
  parse_string (unicode_escape c ++ rest) acc = parse_string rest (c :: acc).
Proof.
  intros Hc. unfold unicode_escape. rewrite hex_fixed_4.
  cbn [app parse_string].
  change (92 =? 34) with false. change (92 <? 32) with false.
  change (92 =? 92) with true. change (simple_escape 117) with (@None N).
  change (117 =? 117) with true. cbn match.
  rewrite !hex_val_hex_digit by (apply N.mod_lt; lia).
  f_equal. f_equal.
  pose proof (N.div_mod c 16 ltac:(lia)).
  pose proof (N.div_mod (c / 16) 16 ltac:(lia)).
  pose proof (N.div_mod (c / 16 / 16) 16 ltac:(lia)).
  pose proof (N.div_mod (c / 16 / 16 / 16) 16 ltac:(lia)).
  assert (c / 16 / 16 / 16 < 16).
  { do 3 (apply N.Div0.div_lt_upper_bound). lia. }
  rewrite (N.mod_small (c / 16 / 16 / 16) 16) by done. lia.
Qed.

(** Reading back a character written raw. *)
Lemma parse_raw c rest acc :
  32 <= c -> c <> 34 -> c <> 92 ->
  parse_string (c :: rest) acc = parse_string rest (c :: acc).
Proof.
  intros H32 H34 H92. cbn [parse_string].
  replace (c =? 34) with false by (symmetry; by apply N.eqb_neq).
  replace (c <? 32) with false by (symmetry; apply N.ltb_ge; lia).
  by replace (c =? 92) with false by (symmetry; by apply N.eqb_neq).
Qed.

Lemma parse_quote_char c rest acc :
  c < 65536 ->
  parse_string (quote_char c ++ rest) acc = parse_string rest (c :: acc).
Proof.
  intros Hc. unfold quote_char.
  destruct (c =? 8) eqn:H8; [apply N.eqb_eq in H8 as ->; reflexivity|].
  destruct (c =? 9) eqn:H9; [apply N.eqb_eq in H9 as ->; reflexivity|].
  destruct (c =? 10) eqn:H10; [apply N.eqb_eq in H10 as ->; reflexivity|].
  destruct (c =? 12) eqn:H12; [apply N.eqb_eq in H12 as ->; reflexivity|].
  destruct (c =? 13) eqn:H13; [apply N.eqb_eq in H13 as ->; reflexivity|].
  destruct (c =? 34) eqn:H34; [apply N.eqb_eq in H34 as ->; reflexivity|].
  destruct (c =? 92) eqn:H92; [apply N.eqb_eq in H92 as ->; reflexivity|].
  destruct (c <? 32) eqn:H32; [by apply parse_unicode_escape|].
  apply N.ltb_ge in H32. apply N.eqb_neq in H34, H92.
  by apply parse_raw.
Qed.

Lemma surrogate_raw c :
  is_high_surrogate c || is_low_surrogate c = true ->
  32 <= c /\ c <> 34 /\ c <> 92.
Proof.
  unfold is_high_surrogate, is_low_surrogate.
  intros [H|H]%orb_prop; apply andb_prop in H as [H _];
    apply N.leb_le in H; lia.
Qed.

(** The string literal [JSON.stringify] writes reads back as the string. *)
Lemma parse_quote_body_upto n s rest acc :
  (length s <= n)%nat ->
  code_units s ->
  parse_string (quote_body s ++ 34 :: rest) acc = Some (rev acc ++ s, rest).
Proof.
  revert s acc. induction n as [|n IH]; intros s acc Hn Hs.
  { destruct s; [|cbn in Hn; lia]. cbn. by rewrite app_nil_r. }
  destruct s as [|c r]; [cbn; by rewrite app_nil_r|].
  cbn [length] in Hn. inversion Hs as [|? ? Hc Hr]; subst.
  assert (Hstep : forall acc', rev (c :: acc') ++ r = rev acc' ++ c :: r).
  { intros acc'. cbn [rev]. by rewrite <- app_assoc. }
  cbn [quote_body].
  destruct (is_high_surrogate c) eqn:Hhigh.
  - destruct (surrogate_raw c) as (H32 & H34 & H92); [by rewrite Hhigh|].
    destruct r as [|d r'].
    + rewrite parse_unicode_escape by done. reflexivity.
    + destruct (is_low_surrogate d) eqn:Hlow.
      * destruct (surrogate_raw d) as (G32 & G34 & G92);
          [by rewrite Hlow, orb_true_r|].
        cbn [app]. rewrite parse_raw, parse_raw by done.
        inversion Hr; subst. rewrite IH; [|cbn [length] in Hn; lia|done].
        cbn [rev]. by rewrite <- !app_assoc.
      * rewrite <- app_assoc, parse_unicode_escape by done.
        rewrite IH; [|lia|done]. apply (f_equal (fun x => Some (x, rest))), Hstep.
  - destruct (is_low_surrogate c) eqn:Hlow.
    + rewrite <- app_assoc, parse_unicode_escape by done.
      rewrite IH; [|lia|done]. apply (f_equal (fun x => Some (x, rest))), Hstep.
    + rewrite <- app_assoc, parse_quote_char by done.
      rewrite IH; [|lia|done]. apply (f_equal (fun x => Some (x, rest))), Hstep.
Qed.

Lemma parse_quote_body s rest :
  code_units s ->
  parse_string (quote_body s ++ 34 :: rest) [] = Some (s, rest).
Proof. intros Hs. by rewrite (parse_quote_body_upto (length s)). Qed.

Lemma hex_digit_not_newline d : d < 16 -> hex_digit d <> 10.
Proof. unfold hex_digit. destruct (d <? 10); lia. Qed.

Lemma newline_free_unicode_escape c : newline_free (unicode_escape c) = true.
Proof.
  unfold unicode_escape. rewrite hex_fixed_4. unfold newline_free.
  cbn [forallb]. rewrite !andb_true_r. change (negb (92 =? 10)) with true.
  change (negb (117 =? 10)) with true. cbn [andb].
  repeat (apply andb_true_intro; split);
    apply negb_true_iff, N.eqb_neq, hex_digit_not_newline, N.mod_lt; lia.
Qed.

Lemma newline_free_quote_char c : newline_free (quote_char c) = true.
Proof.
  unfold quote_char.
  repeat match goal with
         | |- context [if ?b then _ else _] => destruct b eqn:?; [try reflexivity|]
         end.
  - apply newline_free_unicode_escape.
  - cbn. rewrite andb_true_r. by apply negb_true_iff.
Qed.

Lemma newline_free_quote_body_upto n s :
  (length s <= n)%nat -> newline_free (quote_body s) = true.
Proof.
  revert s. induction n as [|n IH]; intros s Hn.
  { destruct s; [done|cbn in Hn; lia]. }
  destruct s as [|c r]; [done|]. cbn [length] in Hn. cbn [quote_body].
  assert (Hraw : forall x, is_high_surrogate x || is_low_surrogate x = true ->
                   negb (x =? 10) = true).
  { intros x Hx. apply surrogate_raw in Hx as (H32 & _ & _).
    apply negb_true_iff, N.eqb_neq. lia. }
  destruct (is_high_surrogate c) eqn:Hhigh.
  - destruct r as [|d r']; [apply newline_free_unicode_escape|].
    destruct (is_low_surrogate d) eqn:Hlow.
    + cbn [newline_free forallb].
      rewrite (Hraw c) by (by rewrite Hhigh).
      rewrite (Hraw d) by (by rewrite Hlow, orb_true_r).
      cbn [andb]. apply IH. cbn [length] in Hn. lia.
    + rewrite newline_free_app, newline_free_unicode_escape. apply IH. lia.
  - destruct (is_low_surrogate c).
    + rewrite newline_free_app, newline_free_unicode_escape. apply IH. lia.
    + rewrite newline_free_app, newline_free_quote_char. apply IH. lia.
Qed.

Lemma partial_payload_length s :
  (length (partial_payload s) = 29 + length (quote_body s))%nat.
Proof.
  unfold partial_payload, JSON_stringify_string.
  rewrite !length_app. cbn [length]. rewrite length_app. cbn. lia.
Qed.

Lemma parse_value_open_object f r :
  parse_value (S f) (123 :: 34 :: r) = parse_members f (34 :: r) [].
Proof. reflexivity. Qed.

Lemma parse_value_string f s :
  parse_value (S f) (34 :: s)
  = match parse_string s [] with
    | Some (str, r') => POk (JStr str) r'
    | None => PErr
    end.
Proof. reflexivity. Qed.

Lemma parse_members_member f key r2 acc s :
  parse_string s [] = Some (key, 58 :: r2) ->
  parse_members (S f) (34 :: s) acc
  = match parse_value f r2 with
    | POk v r3 =>
        match skip_ws r3 with
        | c3 :: r4 =>
            if c3 =? 44 then parse_members f r4 ((key, v) :: acc)
            else if c3 =? 125 then POk (JObj (rev ((key, v) :: acc))) r4
            else PErr
        | [] => PErr
        end
    | PErr => PErr
    | PFuel => PFuel
    end.
Proof. intros H. cbn [parse_members skip_ws]. change (is_ws 34) with false.
  change (34 =? 34) with true. cbn match. rewrite H. reflexivity. Qed.

(** X19.  The frame written for a string fragment keeps the framing and
    loses nothing, whatever the fragment holds (quotes, backslashes, line
    feeds, control characters, lone surrogates): it is one data line
    followed by a blank line, and its payload parses back to an object
    whose [content] is the fragment and whose [partial] is [true]. *)
Theorem partial_frame_round_trip fragment :
  code_units fragment ->
  split_newline (partial_frame fragment)
  = [data_prefix ++ partial_payload fragment; []; []] /\
  JSON_parse (partial_payload fragment)
  = Some (JObj [(jstr "content", JStr fragment);
                (jstr "partial", JBool true)]).
Proof.
  intros Hs. split.
  - unfold partial_frame.
    change (data_prefix ++ partial_payload fragment ++ [10; 10])
      with (data_prefix ++ partial_payload fragment ++ 10 :: [10]).
    rewrite app_assoc, split_newline_app.
    rewrite split_newline_line; [done|].
    rewrite newline_free_app. unfold partial_payload, JSON_stringify_string.
    rewrite !newline_free_app. cbn [newline_free forallb].
    rewrite newline_free_app.
    rewrite (newline_free_quote_body_upto (length fragment)) by done.
    reflexivity.
  - unfold JSON_parse.
    destruct (parse_fuel (partial_payload fragment))
      as [|[|[|[|[|k]]]]] eqn:Hfuel;
      try (unfold parse_fuel in Hfuel; rewrite partial_payload_length in Hfuel;
           lia).
    clear Hfuel.
    replace (partial_payload fragment)
      with ([123; 34; 99; 111; 110; 116; 101; 110; 116; 34; 58; 34]
            ++ quote_body fragment
            ++ 34 :: [44; 34; 112; 97; 114; 116; 105; 97; 108; 34; 58;
                      116; 114; 117; 101; 125]).
    2:{ unfold partial_payload, JSON_stringify_string.
        replace (jtext "{'content':")
          with [123; 34; 99; 111; 110; 116; 101; 110; 116; 34; 58]
          by (vm_compute; reflexivity).
        replace (jtext ",'partial':true}")
          with [44; 34; 112; 97; 114; 116; 105; 97; 108; 34; 58;
                116; 114; 117; 101; 125]
          by (vm_compute; reflexivity).
        cbn [app]. by rewrite <- app_assoc. }
    cbn [app].
    rewrite parse_value_open_object.
    rewrite (parse_members_member _ (jstr "content")
               (34 :: quote_body fragment
                ++ [34; 44; 34; 112; 97; 114; 116; 105; 97; 108; 34; 58;
                    116; 114; 117; 101; 125])) by reflexivity.
    rewrite parse_value_string, (parse_quote_body fragment _ Hs).
    cbn [skip_ws is_ws N.eqb Pos.eqb orb].
    change (44 =? 44) with true. cbn match.
    rewrite (parse_members_member _ (jstr "partial") [116; 114; 117; 101; 125])
      by reflexivity.
    reflexivity.
Qed.

Lemma partial_frame_round_trip_witness :
  code_units (jtext "say 'hi'|twice\") /\
  split_newline (partial_frame (jtext "say 'hi'|twice\"))
  = [data_prefix ++ partial_payload (jtext "say 'hi'|twice\"); []; []] /\
  JSON_parse (partial_payload (jtext "say 'hi'|twice\"))
  = Some (JObj [(jstr "content", JStr (jtext "say 'hi'|twice\"));
                (jstr "partial", JBool true)]).
Proof.
  assert (H : code_units (jtext "say 'hi'|twice\")).
  { repeat constructor. }
  split; [exact H|].
  exact (partial_frame_round_trip (jtext "say 'hi'|twice\") H).
Defined.

Example partial_frame_text :
  partial_frame (jtext "a'b|")
  = jtext "data: {'content':'a\'b\n','partial':true}||".
Proof. vm_compute. reflexivity. Qed.

(* ===================================================================== *)
(** ** The chat view and its listener *)
(* ===================================================================== *)

Lemma same_stamp_and_content_true a b :
  same_stamp_and_content a b = true
  <-> stamp_and_content a = stamp_and_content b.
Proof.
  unfold same_stamp_and_content, stamp_and_content.
  rewrite andb_true_iff, Z.eqb_eq, str_eqb_true. split.
  - by intros [-> ->].
  - by intros [= -> ->].
Qed.

Lemma shown_iff prev m :
  existsb (fun msg => same_stamp_and_content msg m) prev = true
  <-> In (stamp_and_content m) (map stamp_and_content prev).
Proof.
  rewrite existsb_exists, in_map_iff. split.
  - intros (x & Hx & Hk). exists x. split; [|done].
    by apply same_stamp_and_content_true.
  - intros (x & Hk & Hx). exists x. split; [done|].
    by apply same_stamp_and_content_true.
Qed.

Lemma on_new_message_extends chatId prev data :
  extends_log prev (on_new_message chatId prev data).
Proof.
  unfold on_new_message.
  destruct (str_eqb _ _); [|apply extends_log_refl].
  destruct (existsb _ _); [apply extends_log_refl|].
  by exists [ev_message data].
Qed.

Lemma receive_extends chatId events : forall prev,
  extends_log prev (receive chatId prev events).
Proof.
  induction events as [|e events IH]; intros prev; [apply extends_log_refl|].
  eapply extends_log_trans; [apply on_new_message_extends|apply IH].
Qed.

Lemma receive_app chatId prev e1 e2 :
  receive chatId prev (e1 ++ e2) = receive chatId (receive chatId prev e1) e2.
Proof. apply fold_left_app. Qed.

(** An event that changes nothing in a list changes nothing in a longer
    one. *)
Lemma on_new_message_settled_extends chatId prev added data :
  on_new_message chatId prev data = prev ->
  on_new_message chatId (prev ++ added) data = prev ++ added.
Proof.
  unfold on_new_message.
  destruct (str_eqb _ _); [|done].
  rewrite existsb_app.
  destruct (existsb _ prev); [done|].
  intros H. exfalso.
  apply (f_equal (@length _)) in H. rewrite length_app in H. cbn in H. lia.
Qed.

Lemma on_new_message_settles chatId prev data :
  on_new_message chatId (on_new_message chatId prev data) data
  = on_new_message chatId prev data.
Proof.
  unfold on_new_message.
  destruct (str_eqb _ _) eqn:Hid; [|done].
  destruct (existsb _ prev) eqn:Hshown.
  - by rewrite Hshown.
  - rewrite existsb_app. cbn [existsb].
    replace (same_stamp_and_content (ev_message data) (ev_message data))
      with true; [by rewrite orb_true_r|].
    symmetry. by apply same_stamp_and_content_true.
Qed.

Lemma receive_settled chatId events : forall prev,
  (forall e, In e events -> on_new_message chatId prev e = prev) ->
  receive chatId prev events = prev.
Proof.
  induction events as [|e events IH]; intros prev H; [done|].
  cbn [receive fold_left]. rewrite (H e) by by left.
  apply IH. intros e' He'. apply H. by right.
Qed.

Lemma receive_settles chatId events : forall prev e,
  In e events ->
  on_new_message chatId (receive chatId prev events) e
  = receive chatId prev events.
Proof.
  induction events as [|e0 events IH]; intros prev e; [done|].
  intros [->|He].
  - change (receive chatId prev (e :: events))
      with (receive chatId (on_new_message chatId prev e) events).
    destruct (receive_extends chatId events (on_new_message chatId prev e))
      as [added ->].
    apply on_new_message_settled_extends, on_new_message_settles.
  - by apply IH.
Qed.

(** X20.  The message list of a chat view is unaffected by redelivery: once
    a sequence of ['new-message'] events has been received, receiving any of
    them again, in any order and any number of times, leaves the list as it
    is. *)
Theorem receive_redelivery chatId prev events again :
  (forall e, In e again -> In e events) ->
  receive chatId prev (events ++ again) = receive chatId prev events.
Proof.
  intros Hsub. rewrite receive_app. apply receive_settled.
  intros e He. by apply receive_settles, Hsub.
Qed.

Lemma receive_redelivery_witness :
  let hi := {| ev_chatId := sample_chatId;
               ev_message := user_message (jstr "hi") 61%Z |} in
  let hello := {| ev_chatId := sample_chatId;
                  ev_message :=
                    chat_assistant_message (Some (jstr "Hello")) None
                      (jstr "openai/gpt-4") 109%Z |} in
  (forall e, In e [hello; hi; hello] -> In e [hi; hello]) /\
  receive sample_chatId [] ([hi; hello] ++ [hello; hi; hello])
  = receive sample_chatId [] [hi; hello].
Proof.
  intros hi hello.
  assert (H : forall e, In e [hello; hi; hello] -> In e [hi; hello])
    by (simpl; tauto).
  split; [exact H|].
  exact (receive_redelivery sample_chatId [] [hi; hello] [hello; hi; hello] H).
Defined.

(** X21.  The listener keeps the list free of repeated (timestamp, content)
    pairs: a list without such a repetition stays without one whatever
    arrives, and what was shown stays shown, in place. *)
Theorem receive_keeps_pairs_distinct chatId prev events :
  List.NoDup (map stamp_and_content prev) ->
  List.NoDup (map stamp_and_content (receive chatId prev events)) /\
  extends_log prev (receive chatId prev events).
Proof.
  intros Hprev. split; [|apply receive_extends].
  revert prev Hprev.
  induction events as [|e events IH]; intros prev Hprev; [done|].
  apply IH. unfold on_new_message.
  destruct (str_eqb _ _); [|done].
  destruct (existsb _ prev) eqn:Hshown; [done|].
  rewrite map_app. cbn [map].
  apply NoDup_ListNoDup, NoDup_app. split; [by apply NoDup_ListNoDup|].
  split; [|apply NoDup_singleton].
  intros k Hk ->%list_elem_of_singleton.
  apply list_elem_of_In, shown_iff in Hk. by rewrite Hk in Hshown.
Qed.

Lemma receive_keeps_pairs_distinct_witness :
  let again := {| ev_chatId := sample_chatId;
                  ev_message :=
                    {| role := RoleUser; content := jstr "Welcome!";
                       timestamp := 0%Z; model := None; tokens := 2 |} |} in
  let hi := {| ev_chatId := sample_chatId;
               ev_message := user_message (jstr "hi") 61%Z |} in
  List.NoDup (map stamp_and_content (messages greeted_chat)) /\
  List.NoDup (map stamp_and_content
                (receive sample_chatId (messages greeted_chat) [again; hi])) /\
  extends_log (messages greeted_chat)
    (receive sample_chatId (messages greeted_chat) [again; hi]).
Proof.
  intros again hi.
  assert (H : List.NoDup (map stamp_and_content (messages greeted_chat))).
  { simpl. constructor; [simpl; tauto|constructor]. }
  split; [exact H|].
  exact (receive_keeps_pairs_distinct sample_chatId (messages greeted_chat)
           [again; hi] H).
Defined.

(** Events for this chat whose messages are new, pair by pair, are all
    appended, in order. *)
Lemma receive_fresh chatId events : forall prev,
  Forall (fun e => ev_chatId e = chatId) events ->
  List.NoDup (map stamp_and_content (prev ++ map ev_message events)) ->
  receive chatId prev events = prev ++ map ev_message events.
Proof.
  induction events as [|e events IH]; intros prev Hid Hfresh.
  - cbn. by rewrite app_nil_r.
  - apply Forall_cons in Hid as [He Hid].
    change (receive chatId prev (e :: events))
      with (receive chatId (on_new_message chatId prev e) events).
    assert (Hstep : on_new_message chatId prev e = prev ++ [ev_message e]).
    { unfold on_new_message. rewrite He, str_eqb_refl.
      destruct (existsb _ prev) eqn:Hshown; [|done].
      exfalso. apply shown_iff in Hshown.
      rewrite map_app in Hfresh. cbn [map] in Hfresh.
      apply NoDup_ListNoDup, NoDup_app in Hfresh as (_ & Hdisj & _).
      apply (Hdisj (stamp_and_content (ev_message e))).
      - by apply list_elem_of_In.
      - left. }
    rewrite Hstep, IH; [|done|].
    + by rewrite <- app_assoc.
    + by rewrite <- app_assoc.
Qed.

(** X22.  The view follows the store.  When [POST /chat] answers 200, a
    client showing the chat under the identifier the server emits, with the
    log as it was before the request, ends with exactly the stored log after
    receiving the emitted events, provided no two stored messages share
    timestamp and content and the strings of the stored document are well
    formed (the collection holds those as they were sent). *)
Theorem chat_view_follows_store db uid r clk up id c db' emitted res c' :
  castObjectId (req_chatId r) = Some id ->
  findOne db id uid = Some c ->
  post_chat db uid r clk up = (db', emitted, res) ->
  status res = 200 ->
  db' !! id = Some c' ->
  well_formed_chat c' = true ->
  List.NoDup (map stamp_and_content (messages c')) ->
  receive (hex24 id) (messages c) (map delivered emitted) = messages c'.
Proof.
  intros Hid Hfind Hpost Hres Hc' _. revert Hpost Hres Hc'. unfold post_chat.
  destruct (negb _); [by intros [= <- <- <-]|].
  rewrite Hid, Hfind.
  destruct (save db _ _ _) as [[db1 c1]|] eqn:Hsave1; [|by intros [= <- <- <-]].
  apply save_Some in Hsave1 as (_ & -> & ->).
  destruct up as [detail| |text usage].
  1,2: unfold on_api_error;
       destruct (save _ _ _ _) as [[d x]|]; by intros [= <- <- <-].
  destruct (save _ _ _ _) as [[db2 c2]|] eqn:Hsave2.
  - apply save_Some in Hsave2 as (_ & -> & ->).
    intros [= <- <- <-] _. rewrite lookup_insert_eq. intros [= <-] Hfresh.
    cbn [messages set_lastActivity calculateTotalTokens push set_messages
         set_totalTokens] in *.
    rewrite <- app_assoc in *. cbn [app] in *.
    by apply receive_fresh; [repeat constructor|].
  - clear Hsave2. unfold on_api_error.
    destruct (save _ _ _ _) as [[d x]|]; by intros [= <- <- <-].
Qed.

Lemma chat_view_follows_store_witness :
  exists db' emitted res c',
    post_chat greeted_db sample_user sample_request sample_clock
      (Envelope (Some (jstr "Hello")) (Some 42)) = (db', emitted, res) /\
    status res = 200 /\
    db' !! sample_id = Some c' /\
    well_formed_chat c' = true /\
    length (messages c') = 3%nat /\
    receive (hex24 sample_id) (messages greeted_chat) (map delivered emitted)
    = messages c'.
Proof.
  destruct (post_chat greeted_db sample_user sample_request sample_clock
              (Envelope (Some (jstr "Hello")) (Some 42)))
    as [[db' emitted] res] eqn:Hpost.
  destruct (db' !! sample_id) as [c'|] eqn:Hc'.
  2:{ exfalso. vm_compute in Hpost.
      injection Hpost as <- _ _. vm_compute in Hc'. discriminate Hc'. }
  exists db', emitted, res, c'.
  assert (Hid : castObjectId (req_chatId sample_request) = Some sample_id)
    by (vm_compute; reflexivity).
  assert (Hfind : findOne greeted_db sample_id sample_user = Some greeted_chat)
    by (vm_compute; reflexivity).
  assert (Hres : status res = 200).
  { vm_compute in Hpost. injection Hpost as _ _ <-. reflexivity. }
  assert (Hlen : length (messages c') = 3%nat).
  { vm_compute in Hpost. injection Hpost as <- _ _. vm_compute in Hc'.
    injection Hc' as <-. reflexivity. }
  assert (Hwf : well_formed_chat c' = true).
  { vm_compute in Hpost. injection Hpost as <- _ _. vm_compute in Hc'.
    injection Hc' as <-. vm_compute. reflexivity. }
  assert (Hfresh : List.NoDup (map stamp_and_content (messages c'))).
  { vm_compute in Hpost. injection Hpost as <- _ _. vm_compute in Hc'.
    injection Hc' as <-. simpl.
    repeat (constructor; [simpl; intuition discriminate|]). constructor. }
  repeat (split; [done|]).
  exact (chat_view_follows_store greeted_db sample_user sample_request
           sample_clock _ sample_id greeted_chat db' emitted res c'
           Hid Hfind Hpost Hres Hc' Hwf Hfresh).
Defined.



(* ===================================================================== *)
(** ** Sending from the view *)
(* ===================================================================== *)



(* ===================================================================== *)
(** ** The authentication state *)
(* ===================================================================== *)

(** X25.  Over any sequence of dispatched actions from the initial state,
    the token of the state is the token the reducer leaves in
    [localStorage]. *)
Theorem authReducer_token_mirrors_storage stored actions :
  auth_token (fold_left authReducer actions (initialState stored, stored)).1
  = (fold_left authReducer actions (initialState stored, stored)).2.
Proof.
  assert (H : forall st : auth_state * option jsstring,
             auth_token st.1 = st.2 ->
             auth_token (fold_left authReducer actions st).1
             = (fold_left authReducer actions st).2).
  { induction actions as [|a actions IH]; intros [state s] Hst; [done|].
    apply IH. cbn in Hst. by destruct a. }
  by apply H.
Qed.

(** X26.  The two route guards never disagree: in every state both show
    the spinner, or exactly one of them shows its page while the other
    redirects. *)
Theorem guards_agree state :
  (PrivateRoute state = Spinner /\ PublicRoute state = Spinner) \/
  (PrivateRoute state = Children /\
   PublicRoute state = RedirectTo (jstr "/")) \/
  (PrivateRoute state = RedirectTo (jstr "/login") /\
   PublicRoute state = Children).
Proof.
  unfold PrivateRoute, PublicRoute.
  destruct (auth_loading state); [by left|].
  destruct (auth_user state); right; [by left|by right].
Qed.
